(** * Filtered-DiskANN: the label-filter expression compiler

    A shallow embedding of [include/filter_parser_util.h] (the class template
    [SyntaxTree<T>]) and the properties of its pipeline

      tokenizer -> infix-to-postfix converter -> tree builder -> evaluator.

    Conventions of the embedding:
    - [std::string] is [string]; [std::vector<std::string>] is [list string],
      [push_back] appends at the end;
    - [std::stack<X>] is [list X] whose head is the top of the stack;
    - a C++ computation that can throw, or whose behaviour the standard leaves
      undefined, returns an [outcome];
    - the template parameter [T] is a type with decidable equality (its
      [operator==]) together with the conversion [(T)val] from [long long]. *)

From Stdlib Require Import List String Ascii ZArith Bool Lia.
Import ListNotations.

Local Open Scope string_scope.
Local Open Scope list_scope.

(** ** Outcomes of C++ evaluation *)

Module Cxx.

(** The exception classes of <stdexcept> the header can raise. *)
Inductive exn : Type :=
| logic_error (what : string)
| invalid_argument (what : string)
| out_of_range (what : string).

(** [Undefined] stands for undefined behaviour: here, [top()] or [pop()]
    called on an empty [std::stack]. *)
Inductive outcome (A : Type) : Type :=
| Ok (a : A)
| Throw (e : exn)
| Undefined.

Arguments Ok {A} a.
Arguments Throw {A} e.
Arguments Undefined {A}.

Definition bind {A B : Type} (m : outcome A) (k : A -> outcome B) : outcome B :=
  match m with
  | Ok a => k a
  | Throw e => Throw e
  | Undefined => Undefined
  end.

(** [std::stack::top] and [std::stack::pop]; both require a non-empty
    stack. *)
Definition top {A : Type} (s : list A) : outcome A :=
  match s with
  | [] => Undefined
  | x :: _ => Ok x
  end.

Definition pop {A : Type} (s : list A) : outcome (list A) :=
  match s with
  | [] => Undefined
  | _ :: rest => Ok rest
  end.

(** A [static const std::unordered_map] with distinct keys, as the list of
    its initialisers. [find(k) != end()] and [at(k)]. *)
Definition unordered_map (V : Type) : Type := list (string * V).

Fixpoint find {V : Type} (m : unordered_map V) (k : string) : option V :=
  match m with
  | [] => None
  | (k', v) :: m' => if String.eqb k' k then Some v else find m' k
  end.

Definition contains {V : Type} (m : unordered_map V) (k : string) : bool :=
  match find m k with Some _ => true | None => false end.

Definition at_ {V : Type} (m : unordered_map V) (k : string) : outcome V :=
  match find m k with
  | Some v => Ok v
  | None => Throw (out_of_range "unordered_map::at")
  end.

(** *** [std::stoll] (base 10, no [idx]) *)

Definition LLONG_MAX : Z := 2 ^ 63 - 1.
Definition LLONG_MIN : Z := - 2 ^ 63.

Definition is_digit (c : ascii) : bool :=
  let n := nat_of_ascii c in (48 <=? n)%nat && (n <=? 57)%nat.

Definition digit_value (c : ascii) : Z := Z.of_nat (nat_of_ascii c) - 48.

(** [isspace] in the "C" locale. *)
Definition isspace (c : ascii) : bool :=
  let n := nat_of_ascii c in ((9 <=? n)%nat && (n <=? 13)%nat) || (n =? 32)%nat.

Fixpoint skip_spaces (s : string) : string :=
  match s with
  | String c s' => if isspace c then skip_spaces s' else s
  | EmptyString => s
  end.

(** The value of the longest prefix of decimal digits, read after the
    digits whose value is [acc]. *)
Fixpoint digits_value (acc : Z) (s : string) : Z :=
  match s with
  | String c s' => if is_digit c then digits_value (10 * acc + digit_value c) s' else acc
  | EmptyString => acc
  end.

Definition starts_with_digit (s : string) : bool :=
  match s with
  | String c _ => is_digit c
  | EmptyString => false
  end.

Definition stoll (str : string) : outcome Z :=
  let s := skip_spaces str in
  let '(negative, s) :=
    match s with
    | String "-"%char s' => (true, s')
    | String "+"%char s' => (false, s')
    | _ => (false, s)
    end in
  if starts_with_digit s then
    let v := digits_value 0 s in
    let v := if negative : bool then (- v)%Z else v in
    if ((LLONG_MIN <=? v) && (v <=? LLONG_MAX))%Z then Ok v
    else Throw (out_of_range "stoll")
  else Throw (invalid_argument "stoll").

End Cxx.

Export Cxx.

Declare Scope cxx_scope.
Delimit Scope cxx_scope with cxx.
Notation "x <- m ;; k" := (bind m (fun x => k))
  (at level 61, m at next level, right associativity) : cxx_scope.
Notation "' p <- m ;; k" := (bind m (fun x => let p := x in k))
  (at level 61, p pattern, m at next level, right associativity) : cxx_scope.
Local Open Scope cxx_scope.

(** ** The nodes of the tree and their [check] *)

Inductive Node (U : Type) : Type :=
| OrNode (_left_node _right_node : Node U)
| AndNode (_left_node _right_node : Node U)
| NotNode (_sub_node : Node U)
| LabelNode (_label : U).

Arguments OrNode {U} _ _.
Arguments AndNode {U} _ _.
Arguments NotNode {U} _.
Arguments LabelNode {U} _.

(** ** The tokenizer helpers, independent of [T] *)

Definition is_blank (c : ascii) : bool :=
  Ascii.eqb c " " || Ascii.eqb c "009".

Definition is_op_char (c : ascii) : bool :=
  Ascii.eqb c "|" || Ascii.eqb c "&" || Ascii.eqb c "!" || Ascii.eqb c "(" || Ascii.eqb c ")".

Definition empty (s : string) : bool :=
  match s with EmptyString => true | String _ _ => false end.

(** [tokens.push_back(cur_token)] guarded by [!cur_token.empty()]. *)
Definition flush (tokens : list string) (cur_token : string) : list string :=
  if empty cur_token then tokens else tokens ++ [cur_token].

(** The [for (char c : logic_expr)] loop of [parse_logic_expression], from the
    state [(tokens, cur_token)], followed by the final flush. *)
Fixpoint parse_loop (logic_expr : string) (tokens : list string) (cur_token : string)
  : outcome (list string) :=
  match logic_expr with
  | EmptyString => Ok (flush tokens cur_token)
  | String c rest =>
      if is_blank c then parse_loop rest tokens cur_token
      else if is_op_char c then
        parse_loop rest (flush tokens cur_token ++ [String c ""]) ""
      else if is_digit c then
        parse_loop rest tokens (cur_token ++ String c "")
      else Throw (logic_error "Token is incorrect")
  end.

Definition parse_logic_expression (logic_expr : string) : outcome (list string) :=
  parse_loop logic_expr [] "".

Definition operators : unordered_map bool :=
  [("|", true); ("&", true); ("!", true); ("(", true); (")", true)].

Definition is_operator (token : string) : bool := contains operators token.

Definition precedence : unordered_map Z :=
  [("|", 1%Z); ("&", 2%Z); ("!", 3%Z)].

Definition higher_precedence (op1 op2 : string) : outcome bool :=
  p1 <- at_ precedence op1 ;;
  p2 <- at_ precedence op2 ;;
  Ok (p1 >=? p2)%Z.

(** ** The infix-to-postfix converter *)

(** [while (!oper_stack.empty() && oper_stack.top() != "(")], the loop of the
    [")"] branch. *)
Fixpoint pop_to_paren (rpn_expr oper_stack : list string) : list string * list string :=
  match oper_stack with
  | [] => (rpn_expr, [])
  | top :: rest =>
      if String.eqb top "(" then (rpn_expr, oper_stack)
      else pop_to_paren (rpn_expr ++ [top]) rest
  end.

(** [if (!oper_stack.empty() && oper_stack.top() == "(") oper_stack.pop();] *)
Definition discard_paren (oper_stack : list string) : list string :=
  match oper_stack with
  | top :: rest => if String.eqb top "(" then rest else oper_stack
  | [] => []
  end.

(** [while (!oper_stack.empty() && oper_stack.top() != "(" &&
     higher_precedence(oper_stack.top(), token))], the loop of the last
    branch. *)
Fixpoint pop_higher (token : string) (rpn_expr oper_stack : list string)
  : outcome (list string * list string) :=
  match oper_stack with
  | [] => Ok (rpn_expr, [])
  | top :: rest =>
      if String.eqb top "(" then Ok (rpn_expr, oper_stack)
      else
        hp <- higher_precedence top token ;;
        if hp : bool then pop_higher token (rpn_expr ++ [top]) rest
        else Ok (rpn_expr, oper_stack)
  end.

(** One iteration of [for (const std::string &token : oper_tokens)]. *)
Definition convert_step (token : string) (st : list string * list string)
  : outcome (list string * list string) :=
  let '(rpn_expr, oper_stack) := st in
  if negb (is_operator token) then Ok (rpn_expr ++ [token], oper_stack)
  else if String.eqb token "(" then Ok (rpn_expr, token :: oper_stack)
  else if String.eqb token ")" then
    let '(rpn_expr, oper_stack) := pop_to_paren rpn_expr oper_stack in
    Ok (rpn_expr, discard_paren oper_stack)
  else
    '(rpn_expr, oper_stack) <- pop_higher token rpn_expr oper_stack ;;
    Ok (rpn_expr, token :: oper_stack).

Fixpoint convert_loop (oper_tokens : list string) (st : list string * list string)
  : outcome (list string * list string) :=
  match oper_tokens with
  | [] => Ok st
  | token :: rest => st' <- convert_step token st ;; convert_loop rest st'
  end.

(** The final [while (!oper_stack.empty())] loop. *)
Fixpoint drain (rpn_expr oper_stack : list string) : list string :=
  match oper_stack with
  | [] => rpn_expr
  | token :: rest => drain (rpn_expr ++ [token]) rest
  end.

Definition convert2rpn (oper_tokens : list string) : outcome (list string) :=
  '(rpn_expr, oper_stack) <- convert_loop oper_tokens ([], []) ;;
  Ok (drain rpn_expr oper_stack).

(** ** The tree builder, the constructor and [check], for a label type [T] *)

Section SyntaxTree.

Variable T : Type.
(** [operator==] of [T]. *)
Variable T_eq_dec : forall x y : T, {x = y} + {x <> y}.
(** The conversion [(T)val] of a [long long]. *)
Variable cast : Z -> T.

(** [std::find(labels->begin(), labels->end(), _label)], as the offset of
    the returned iterator from [begin()]; [end()] is at offset
    [length labels]. *)
Fixpoint std_find (labels : list T) (_label : T) : nat :=
  match labels with
  | [] => 0
  | x :: rest => if T_eq_dec x _label then 0 else S (std_find rest _label)
  end.

Fixpoint check (node : Node T) (labels : list T) : bool :=
  match node with
  | OrNode l r => if check l labels then true else check r labels
  | AndNode l r => if negb (check l labels) then false else check r labels
  | NotNode n => negb (check n labels)
  | LabelNode v => negb (std_find labels v =? List.length labels)%nat
  end.

(** One iteration of [for (auto &op : rpn)] on the stack [res_nodes]. *)
Definition rpn_step (op : string) (res_nodes : list (Node T)) : outcome (list (Node T)) :=
  if negb (is_operator op) then
    val <- stoll op ;;
    Ok (LabelNode (cast val) :: res_nodes)
  else if String.eqb op "|" then
    rhs <- top res_nodes ;;
    res_nodes <- pop res_nodes ;;
    lhs <- top res_nodes ;;
    res_nodes <- pop res_nodes ;;
    Ok (OrNode lhs rhs :: res_nodes)
  else if String.eqb op "&" then
    rhs <- top res_nodes ;;
    res_nodes <- pop res_nodes ;;
    lhs <- top res_nodes ;;
    res_nodes <- pop res_nodes ;;
    Ok (AndNode lhs rhs :: res_nodes)
  else
    sub_node <- top res_nodes ;;
    res_nodes <- pop res_nodes ;;
    Ok (NotNode sub_node :: res_nodes).

Fixpoint rpn_loop (rpn : list string) (res_nodes : list (Node T)) : outcome (list (Node T)) :=
  match rpn with
  | [] => Ok res_nodes
  | op :: rest => res_nodes' <- rpn_step op res_nodes ;; rpn_loop rest res_nodes'
  end.

Definition rpn2tree (rpn : list string) : outcome (Node T) :=
  res_nodes <- rpn_loop rpn [] ;;
  if negb (List.length res_nodes =? 1)%nat then Throw (logic_error "Extra label")
  else top res_nodes.

(** The constructor [SyntaxTree<T>(str_logic_expr)]: the value of [root], or
    how the construction ends otherwise. *)
Definition SyntaxTree (str_logic_expr : string) : outcome (Node T) :=
  tokens <- parse_logic_expression str_logic_expr ;;
  rpn <- convert2rpn tokens ;;
  rpn2tree rpn.

(** [SyntaxTree<T>::check] on a constructed object. *)
Definition SyntaxTree_check (root : Node T) (labels : list T) : bool :=
  check root labels.

(** Construction followed by one query. *)
Definition compile_and_check (str_logic_expr : string) (labels : list T) : outcome bool :=
  root <- SyntaxTree str_logic_expr ;;
  Ok (SyntaxTree_check root labels).

End SyntaxTree.

Arguments std_find {T} T_eq_dec labels _label.
Arguments check {T} T_eq_dec node labels.
Arguments rpn_step {T} cast op res_nodes.
Arguments rpn_loop {T} cast rpn res_nodes.
Arguments rpn2tree {T} cast rpn.
Arguments SyntaxTree {T} cast str_logic_expr.
Arguments SyntaxTree_check {T} T_eq_dec root labels.
Arguments compile_and_check {T} T_eq_dec cast str_logic_expr labels.

(** Two instances of the label type: [T = int64_t] (the conversion from
    [long long] is the identity) and [T = uint32_t] (the conversion wraps
    modulo [2^32]). Both are carried by [Z]. *)
Definition cast_int64 (val : Z) : Z := val.
Definition cast_uint32 (val : Z) : Z := (val mod 2 ^ 32)%Z.

(** ** The vocabulary of the specification *)

(** The string made of one horizontal tab. *)
Definition tab : string := String "009" "".

Fixpoint all_chars (p : ascii -> bool) (s : string) : bool :=
  match s with
  | EmptyString => true
  | String c s' => p c && all_chars p s'
  end.

(** The characters the tokenizer accepts. *)
Definition valid_char (c : ascii) : bool :=
  is_blank c || is_op_char c || is_digit c.

(** The input with all spaces and tabs removed. *)
Fixpoint strip (s : string) : string :=
  match s with
  | EmptyString => EmptyString
  | String c s' => if is_blank c then strip s' else String c (strip s')
  end.

Fixpoint concat_tokens (ts : list string) : string :=
  match ts with
  | [] => EmptyString
  | t :: ts' => t ++ concat_tokens ts'
  end.

(** A token that is a single operator or parenthesis character. *)
Definition is_op_token (tok : string) : bool :=
  match tok with
  | String c EmptyString => is_op_char c
  | _ => false
  end.

(** A literal token: [digit+]. *)
Definition is_literal (tok : string) : bool :=
  negb (empty tok) && all_chars is_digit tok.

Definition literal_value (tok : string) : Z := digits_value 0 tok.

(** A well-formed token: an operator or parenthesis character, or a literal. *)
Definition token_ok (tok : string) : Prop :=
  is_op_token tok = true \/ is_literal tok = true.

Definition ends_with_digit (s : string) : bool :=
  match rev (list_ascii_of_string s) with
  | c :: _ => is_digit c
  | [] => false
  end.

(** No two literal tokens are next to each other. *)
Fixpoint no_adjacent_literals (ts : list string) : bool :=
  match ts with
  | t1 :: ts' =>
      match ts' with
      | t2 :: _ => negb (is_literal t1 && is_literal t2)
      | [] => true
      end && no_adjacent_literals ts'
  | [] => true
  end.

(** No ["!"] token is immediately followed by another ["!"] token. *)
Fixpoint no_double_not (ts : list string) : bool :=
  match ts with
  | t1 :: ts' =>
      match ts' with
      | t2 :: _ => negb (String.eqb t1 "!" && String.eqb t2 "!")
      | [] => true
      end && no_double_not ts'
  | [] => true
  end.

(** Every literal token denotes a value that fits [long long]. *)
Definition literals_fit (ts : list string) : bool :=
  forallb (fun tok => negb (is_literal tok) || (literal_value tok <=? LLONG_MAX)%Z) ts.

(** The operators left on the stack after a factor has been read: its
    leading ["!"], if it has one. *)
Definition pending_not (ts : list string) : list string :=
  match ts with
  | t :: _ => if String.eqb t "!" then ["!"] else []
  | [] => []
  end.

(** Operators of precedence at least that of ["&"], and all operators with a
    precedence. *)
Definition tight (tok : string) : Prop := tok = "&" \/ tok = "!".
Definition pending_op (tok : string) : Prop := tok = "|" \/ tok = "&" \/ tok = "!".

(** The operator stacks on which an expression, a term and a factor start. *)
Definition expr_base (stk : list string) : Prop :=
  match stk with [] => True | top :: _ => top = "(" end.
Definition term_base (stk : list string) : Prop :=
  match stk with [] => True | top :: _ => top = "(" \/ top = "|" end.
Definition factor_base (stk : list string) : Prop :=
  match stk with [] => True | top :: _ => top = "(" \/ top = "|" \/ top = "&" end.

(** From a stack satisfying [base], the converter turns [ts] into the
    postfix tokens [r] and leaves the operators [pend] on the stack; [r]
    followed by [pend] builds [t] on top of any node stack. *)
Definition processes {T : Type} (cast : Z -> T) (base : list string -> Prop)
    (ts pend : list string) (t : Node T) : Prop :=
  exists r,
    (forall ns, rpn_loop cast (r ++ pend) ns = Ok (t :: ns)) /\
    (forall rpn stk, base stk ->
       convert_loop ts (rpn, stk) = Ok (rpn ++ r, pend ++ stk)).

(** [s] spells the tokens [ts] with any number of spaces and tabs before,
    between and after them. *)
Inductive spaced : list string -> string -> Prop :=
| spaced_nil ws :
    all_chars is_blank ws = true -> spaced [] ws
| spaced_cons ws tok ts s :
    all_chars is_blank ws = true -> spaced ts s -> spaced (tok :: ts) (ws ++ tok ++ s).

(** The grammar of the external interface, over tokens, each derivation with
    the tree it denotes ([|] and [&] associate to the left):
<<
    expr   := term ('|' term)*
    term   := factor ('&' factor)*
    factor := '!' factor | '(' expr ')' | LITERAL
>> *)
Module Grammar.
Section Grammar.

Variable T : Type.
Variable cast : Z -> T.

Inductive expr : list string -> Node T -> Prop :=
| expr_term ts t :
    term ts t -> expr ts t
| expr_or ts1 ts2 t1 t2 :
    expr ts1 t1 -> term ts2 t2 -> expr (ts1 ++ "|" :: ts2) (OrNode t1 t2)
with term : list string -> Node T -> Prop :=
| term_factor ts t :
    factor ts t -> term ts t
| term_and ts1 ts2 t1 t2 :
    term ts1 t1 -> factor ts2 t2 -> term (ts1 ++ "&" :: ts2) (AndNode t1 t2)
with factor : list string -> Node T -> Prop :=
| factor_not ts t :
    factor ts t -> factor ("!" :: ts) (NotNode t)
| factor_paren ts t :
    expr ts t -> factor ("(" :: ts ++ [")"]) t
| factor_literal tok :
    is_literal tok = true -> factor [tok] (LabelNode (cast (literal_value tok))).

(** An expression string of the grammar, with free spacing. *)
Definition generates (s : string) : Prop :=
  exists ts t, expr ts t /\ spaced ts s.

(** A factor that is not a negation: a literal or a parenthesised
    expression. *)
Definition atom (ts : list string) (t : Node T) : Prop :=
  factor ts t /\ hd "" ts <> "!".

End Grammar.

Arguments expr {T} cast _ _.
Arguments term {T} cast _ _.
Arguments factor {T} cast _ _.
Arguments generates {T} cast s.
Arguments atom {T} cast ts t.
Arguments expr_term {T} cast ts t _.
Arguments expr_or {T} cast ts1 ts2 t1 t2 _ _.
Arguments term_factor {T} cast ts t _.
Arguments term_and {T} cast ts1 ts2 t1 t2 _ _.
Arguments factor_not {T} cast ts t _.
Arguments factor_paren {T} cast ts t _.
Arguments factor_literal {T} cast tok _.

Scheme expr_mut := Minimality for expr Sort Prop
with term_mut := Minimality for term Sort Prop
with factor_mut := Minimality for factor Sort Prop.
Combined Scheme grammar_mutind from expr_mut, term_mut, factor_mut.

End Grammar.

(** ** Observations on trees, tokens and converter states *)

(** The labels at the leaves of a tree, from left to right. *)
Fixpoint leaves {U : Type} (node : Node U) : list U :=
  match node with
  | OrNode l r => leaves l ++ leaves r
  | AndNode l r => leaves l ++ leaves r
  | NotNode n => leaves n
  | LabelNode v => [v]
  end.

(** The leaves of the nodes of a stack, bottom node first. *)
Definition stack_leaves {U : Type} (ns : list (Node U)) : list U :=
  flat_map leaves (rev ns).

(** A tree without any Not node. *)
Fixpoint negation_free {U : Type} (node : Node U) : bool :=
  match node with
  | OrNode l r => negation_free l && negation_free r
  | AndNode l r => negation_free l && negation_free r
  | NotNode _ => false
  | LabelNode _ => true
  end.

(** The tokens the converter and the builder treat as operands, and the two
    binary operators. *)
Definition is_operand (tok : string) : bool := negb (is_operator tok).
Definition is_binary (tok : string) : bool := String.eqb tok "|" || String.eqb tok "&".

(** An operator stack as the converter builds it: ["("] and the three
    operators with a precedence only. *)
Definition stack_ops (stk : list string) : Prop :=
  Forall (fun tok => tok = "(" \/ pending_op tok) stk.

(** What one iteration of the converter does to its state, branch by
    branch. *)
Inductive step_spec (token : string) :
  list string * list string -> list string * list string -> Prop :=
| step_operand rpn stk :
    is_operator token = false ->
    step_spec token (rpn, stk) (rpn ++ [token], stk)
| step_open rpn stk :
    token = "(" ->
    step_spec token (rpn, stk) (rpn, "(" :: stk)
| step_close rpn popped rest :
    token = ")" -> Forall pending_op popped ->
    step_spec token (rpn, popped ++ rest) (rpn ++ popped, discard_paren rest)
| step_operator rpn popped rest :
    pending_op token -> Forall pending_op popped ->
    step_spec token (rpn, popped ++ rest) (rpn ++ popped, token :: rest).

(** The ways the constructor can end. *)
Definition constructor_outcome {U : Type} (o : outcome (Node U)) : Prop :=
  (exists root, o = Ok root) \/
  o = Undefined \/
  o = Throw (logic_error "Token is incorrect") \/
  o = Throw (logic_error "Extra label") \/
  o = Throw (out_of_range "stoll").

(** The string [s] spells, with free spacing, the tokens [ts] that derive
    the tree [t] at one level of the grammar, without two consecutive ["!"]
    and with literals that fit [long long]. *)
Definition spells {U : Type} (level : list string -> Node U -> Prop)
    (s : string) (ts : list string) (t : Node U) : Prop :=
  level ts t /\ spaced ts s /\ no_double_not ts = true /\ literals_fit ts = true.

(** * Properties *)

(** ** Strings *)

Section Strings.

Lemma append_nil_r (s : string) : (s ++ "")%string = s.
Proof. induction s; simpl; congruence. Qed.

Lemma append_assoc (a b c : string) : ((a ++ b) ++ c = a ++ (b ++ c))%string.
Proof. induction a; simpl; congruence. Qed.

Lemma strip_app (a b : string) : strip (a ++ b) = (strip a ++ strip b)%string.
Proof.
  induction a as [|c a IH]; simpl; [reflexivity|].
  destruct (is_blank c); simpl; congruence.
Qed.

Lemma strip_blank (ws : string) : all_chars is_blank ws = true -> strip ws = "".
Proof.
  induction ws as [|c ws IH]; simpl; [reflexivity|].
  intros H. apply andb_true_iff in H as [Hc Hws]. rewrite Hc. auto.
Qed.

Lemma strip_no_blank (s : string) :
  all_chars (fun c => negb (is_blank c)) s = true -> strip s = s.
Proof.
  induction s as [|c s IH]; simpl; [reflexivity|].
  intros H. apply andb_true_iff in H as [Hc Hs].
  apply negb_true_iff in Hc. rewrite Hc, IH; auto.
Qed.

Lemma all_chars_app (p : ascii -> bool) (a b : string) :
  all_chars p (a ++ b) = all_chars p a && all_chars p b.
Proof.
  induction a as [|c a IH]; simpl; [reflexivity|].
  rewrite IH. apply andb_assoc.
Qed.

Lemma all_chars_impl (p q : ascii -> bool) (s : string) :
  (forall c, p c = true -> q c = true) ->
  all_chars p s = true -> all_chars q s = true.
Proof.
  intros Hpq. induction s as [|c s IH]; simpl; [reflexivity|].
  intros H. apply andb_true_iff in H as [Hc Hs].
  rewrite (Hpq _ Hc), IH; auto.
Qed.

(** The three character classes of the tokenizer are disjoint. *)
Lemma digit_not_blank (c : ascii) : is_digit c = true -> is_blank c = false.
Proof.
  destruct c as [[] [] [] [] [] [] [] []]; vm_compute; congruence.
Qed.

Lemma digit_not_op (c : ascii) : is_digit c = true -> is_op_char c = false.
Proof.
  destruct c as [[] [] [] [] [] [] [] []]; vm_compute; congruence.
Qed.

Lemma op_not_blank (c : ascii) : is_op_char c = true -> is_blank c = false.
Proof.
  destruct c as [[] [] [] [] [] [] [] []]; vm_compute; congruence.
Qed.

Lemma op_char_cases (c : ascii) :
  is_op_char c = true ->
  c = "|"%char \/ c = "&"%char \/ c = "!"%char \/ c = "("%char \/ c = ")"%char.
Proof.
  unfold is_op_char. rewrite !orb_true_iff, !Ascii.eqb_eq. tauto.
Qed.

End Strings.

(** ** Tokens *)

Section Tokens.

Lemma op_token_inv (tok : string) :
  is_op_token tok = true -> exists c, tok = String c "" /\ is_op_char c = true.
Proof.
  destruct tok as [|c [|]]; simpl; try discriminate. eauto.
Qed.

Lemma op_token_cases (tok : string) :
  is_op_token tok = true ->
  tok = "|" \/ tok = "&" \/ tok = "!" \/ tok = "(" \/ tok = ")".
Proof.
  intros H. apply op_token_inv in H as (c & -> & Hc).
  apply op_char_cases in Hc. intuition subst; auto.
Qed.

Lemma op_token_not_literal (tok : string) :
  is_op_token tok = true -> is_literal tok = false.
Proof.
  intros H. apply op_token_cases in H. intuition subst; reflexivity.
Qed.

Lemma is_operator_cases (tok : string) :
  is_operator tok = true ->
  tok = "|" \/ tok = "&" \/ tok = "!" \/ tok = "(" \/ tok = ")".
Proof.
  unfold is_operator, contains, operators. cbn [find].
  repeat match goal with
         | |- context [String.eqb ?a tok] =>
             destruct (String.eqb_spec a tok); [subst; tauto|]
         end.
  discriminate.
Qed.

Lemma literal_not_operator (tok : string) :
  is_literal tok = true -> is_operator tok = false.
Proof.
  intros H. destruct (is_operator tok) eqn:E; [|reflexivity].
  apply is_operator_cases in E. intuition subst; discriminate.
Qed.

Lemma literal_no_blank (tok : string) :
  is_literal tok = true -> all_chars (fun c => negb (is_blank c)) tok = true.
Proof.
  unfold is_literal. intros H. apply andb_true_iff in H as [_ H].
  revert H. apply all_chars_impl. intros c Hc.
  now rewrite (digit_not_blank _ Hc).
Qed.

Lemma token_ok_strip (tok : string) : token_ok tok -> strip tok = tok.
Proof.
  intros [H|H].
  - apply op_token_cases in H. intuition subst; reflexivity.
  - apply strip_no_blank, literal_no_blank, H.
Qed.

Lemma spaced_strip (ts : list string) (s : string) :
  Forall token_ok ts -> spaced ts s -> strip s = concat_tokens ts.
Proof.
  intros Hok Hsp. induction Hsp as [ws Hws|ws tok ts s Hws Hsp IH].
  - now apply strip_blank.
  - inversion Hok; subst.
    rewrite !strip_app, (strip_blank _ Hws), token_ok_strip, IH by assumption.
    reflexivity.
Qed.

Lemma no_adjacent_literals_app (l1 l2 : list string) (op : string) :
  is_literal op = false ->
  no_adjacent_literals (l1 ++ op :: l2) =
  no_adjacent_literals l1 && no_adjacent_literals l2.
Proof.
  intros Hop. induction l1 as [|a l1 IH].
  - simpl. rewrite Hop. destruct l2; reflexivity.
  - change ((a :: l1) ++ op :: l2) with (a :: (l1 ++ op :: l2)).
    cbn [no_adjacent_literals]. rewrite IH.
    destruct l1 as [|b l1]; cbn [app no_adjacent_literals].
    + rewrite Hop, andb_false_r. reflexivity.
    + now rewrite andb_assoc.
Qed.

Lemma no_double_not_app (l1 l2 : list string) (x : string) :
  x <> "!" ->
  no_double_not (l1 ++ x :: l2) = no_double_not l1 && no_double_not l2.
Proof.
  intros Hx. apply String.eqb_neq in Hx.
  induction l1 as [|a l1 IH].
  - cbn [app no_double_not]. rewrite Hx. destruct l2; reflexivity.
  - change ((a :: l1) ++ x :: l2) with (a :: (l1 ++ x :: l2)).
    cbn [no_double_not]. rewrite IH.
    destruct l1 as [|b l1]; cbn [app no_double_not].
    + rewrite Hx, andb_false_r. reflexivity.
    + now rewrite andb_assoc.
Qed.

End Tokens.

(** ** The tokenizer *)

Section Tokenizer.

Lemma flush_app (tokens : list string) (cur : string) :
  flush tokens cur = tokens ++ flush [] cur.
Proof.
  unfold flush. destruct (empty cur); simpl; [now rewrite app_nil_r|reflexivity].
Qed.

(** The tokens already pushed are never touched again. *)
Lemma parse_loop_tokens (s : string) (tokens : list string) (cur : string) :
  parse_loop s tokens cur =
  (ts <- parse_loop s [] cur ;; Ok (tokens ++ ts)).
Proof.
  revert tokens cur. induction s as [|c s IH]; intros tokens cur; simpl.
  - now rewrite flush_app.
  - destruct (is_blank c); [apply IH|].
    destruct (is_op_char c).
    + rewrite IH, (IH (flush [] cur ++ _)).
      destruct (parse_loop s [] ""); simpl; try reflexivity.
      now rewrite (flush_app tokens), <- !app_assoc.
    + destruct (is_digit c); [apply IH|reflexivity].
Qed.

(** Spaces and tabs do not influence the tokens. *)
Lemma parse_loop_strip (s : string) (tokens : list string) (cur : string) :
  parse_loop s tokens cur = parse_loop (strip s) tokens cur.
Proof.
  revert tokens cur. induction s as [|c s IH]; intros tokens cur; simpl.
  - reflexivity.
  - destruct (is_blank c) eqn:Hb; [apply IH|].
    simpl. rewrite Hb.
    destruct (is_op_char c); [apply IH|].
    destruct (is_digit c); [apply IH|reflexivity].
Qed.

(** A run of digits is accumulated in [cur_token]. *)
Lemma parse_loop_digits (ds rest : string) (tokens : list string) (cur : string) :
  all_chars is_digit ds = true ->
  parse_loop (ds ++ rest) tokens cur = parse_loop rest tokens (cur ++ ds).
Proof.
  revert cur. induction ds as [|c ds IH]; intros cur; simpl.
  - now rewrite append_nil_r.
  - intros H. apply andb_true_iff in H as [Hc Hds].
    rewrite (digit_not_blank _ Hc), (digit_not_op _ Hc), Hc, IH by assumption.
    now rewrite append_assoc.
Qed.

Lemma empty_app_char (cur : string) (c : ascii) : empty (cur ++ String c "") = false.
Proof. destruct cur; reflexivity. Qed.

(** What the loop produces from a state whose [cur_token] holds digits
    only, on an input of accepted characters. *)
Lemma parse_loop_spec (s : string) :
  all_chars valid_char s = true ->
  forall cur, all_chars is_digit cur = true ->
  exists ts,
    parse_loop s [] cur = Ok ts /\
    concat_tokens ts = (cur ++ strip s)%string /\
    Forall token_ok ts /\
    no_adjacent_literals ts = true /\
    (empty cur = false -> exists t ts', ts = t :: ts' /\ is_literal t = true).
Proof.
  induction s as [|c s IH]; intros Hs cur Hcur.
  - simpl. unfold flush. destruct (empty cur) eqn:He.
    + exists []. destruct cur; [|discriminate]. repeat split; auto. discriminate.
    + exists [cur]. simpl. rewrite append_nil_r.
      assert (Hl : is_literal cur = true) by (unfold is_literal; now rewrite He, Hcur).
      repeat split; eauto. constructor; [now right|constructor].
  - simpl in Hs. apply andb_true_iff in Hs as [Hc Hs].
    specialize (IH Hs). simpl.
    destruct (is_blank c) eqn:Hb; [apply IH, Hcur|].
    destruct (is_op_char c) eqn:Ho.
    + destruct (IH "" eq_refl) as (ts & Hts & Hcat & Hok & Hadj & _).
      rewrite parse_loop_tokens, Hts. simpl.
      assert (Hop : is_op_token (String c "") = true) by exact Ho.
      pose proof (op_token_not_literal _ Hop) as Hnl.
      unfold flush. destruct (empty cur) eqn:He.
      * exists (String c "" :: ts). simpl. rewrite Hcat.
        destruct cur; [|discriminate]. simpl.
        repeat split; auto.
        -- constructor; [now left|assumption].
        -- rewrite Hnl. destruct ts; simpl in *; auto.
        -- discriminate.
      * exists (cur :: String c "" :: ts).
        assert (Hl : is_literal cur = true) by (unfold is_literal; now rewrite He, Hcur).
        simpl. rewrite Hcat. simpl.
        repeat split; eauto.
        -- constructor; [now right|]. constructor; [now left|assumption].
        -- rewrite Hnl, andb_false_r. simpl. destruct ts; simpl in *; auto.
    + unfold valid_char in Hc. rewrite Hb, Ho in Hc. simpl in Hc. rewrite Hc.
      destruct (IH (cur ++ String c "")%string) as (ts & Hts & Hcat & Hok & Hadj & Hhd).
      { rewrite all_chars_app, Hcur. simpl. now rewrite Hc. }
      exists ts. rewrite Hts, Hcat, append_assoc. simpl.
      repeat split; auto.
      intros _. apply Hhd, empty_app_char.
Qed.

(** Conversely, the tokenizer recovers any sequence of well-formed tokens
    in which no two literals are adjacent from its concatenation. *)
Lemma parse_loop_concat (ts : list string) :
  Forall token_ok ts -> no_adjacent_literals ts = true ->
  forall cur, all_chars is_digit cur = true ->
  cur = "" \/ (forall t ts', ts = t :: ts' -> is_literal t = false) ->
  parse_loop (concat_tokens ts) [] cur = Ok (flush [] cur ++ ts).
Proof.
  induction ts as [|tok ts IH]; intros Hok Hadj cur Hcur Hhd.
  - simpl. now rewrite app_nil_r.
  - inversion Hok as [|? ? Htok Hok']; subst.
    assert (Hadj' : no_adjacent_literals ts = true).
    { simpl in Hadj. apply andb_true_iff in Hadj. tauto. }
    destruct Htok as [Hop|Hlit].
    + destruct (op_token_inv _ Hop) as (c & -> & Hc).
      simpl. rewrite (op_not_blank _ Hc), Hc.
      rewrite parse_loop_tokens, (IH Hok' Hadj' "" eq_refl (or_introl eq_refl)).
      simpl. now rewrite <- app_assoc.
    + destruct Hhd as [->|Hhd]; [|now rewrite (Hhd _ _ eq_refl) in Hlit].
      pose proof Hlit as Hlit'. unfold is_literal in Hlit'.
      apply andb_true_iff in Hlit' as [Hne Hds].
      simpl. rewrite parse_loop_digits by assumption. simpl.
      rewrite (IH Hok' Hadj' tok Hds).
      * unfold flush. apply negb_true_iff in Hne. now rewrite Hne.
      * right. intros t ts' ->. simpl in Hadj. rewrite Hlit in Hadj.
        destruct (is_literal t); [discriminate|reflexivity].
Qed.

Lemma parse_logic_expression_spaced (ts : list string) (s : string) :
  Forall token_ok ts -> no_adjacent_literals ts = true ->
  strip s = concat_tokens ts ->
  parse_logic_expression s = Ok ts.
Proof.
  intros Hok Hadj Hs. unfold parse_logic_expression.
  rewrite parse_loop_strip, Hs.
  now rewrite (parse_loop_concat ts Hok Hadj "" eq_refl (or_introl eq_refl)).
Qed.

End Tokenizer.

(** ** The infix-to-postfix converter *)

Section Converter.

Lemma convert_loop_app (ts1 ts2 : list string) (st : list string * list string) :
  convert_loop (ts1 ++ ts2) st =
  (st' <- convert_loop ts1 st ;; convert_loop ts2 st').
Proof.
  revert st. induction ts1 as [|tok ts1 IH]; intros st; simpl; [reflexivity|].
  destruct (convert_step tok st); simpl; auto.
Qed.

Lemma drain_app (rpn stk : list string) : drain rpn stk = rpn ++ stk.
Proof.
  revert rpn. induction stk as [|tok stk IH]; intros rpn; simpl.
  - now rewrite app_nil_r.
  - now rewrite IH, <- app_assoc.
Qed.

Lemma pending_op_not_paren (pend : list string) :
  Forall pending_op pend -> ~ In "(" pend.
Proof.
  intros H Hin. rewrite Forall_forall in H.
  destruct (H _ Hin) as [E|[E|E]]; discriminate.
Qed.

Lemma tight_pending (pend : list string) :
  Forall tight pend -> Forall pending_op pend.
Proof.
  apply Forall_impl. unfold tight, pending_op. tauto.
Qed.

Lemma pop_to_paren_pending (pend rpn stk : list string) :
  ~ In "(" pend ->
  pop_to_paren rpn (pend ++ "(" :: stk) = (rpn ++ pend, "(" :: stk).
Proof.
  revert rpn. induction pend as [|op pend IH]; intros rpn Hin; simpl.
  - now rewrite app_nil_r.
  - destruct (String.eqb_spec op "(") as [->|_]; [elim Hin; now left|].
    rewrite IH by (intros H; apply Hin; now right).
    now rewrite <- app_assoc.
Qed.

Lemma pop_to_paren_all (rpn stk : list string) :
  ~ In "(" stk -> pop_to_paren rpn stk = (rpn ++ stk, []).
Proof.
  revert rpn. induction stk as [|op stk IH]; intros rpn Hin; simpl.
  - now rewrite app_nil_r.
  - destruct (String.eqb_spec op "(") as [->|_]; [elim Hin; now left|].
    rewrite IH by (intros H; apply Hin; now right).
    now rewrite <- app_assoc.
Qed.

Lemma pop_higher_and (pend rpn stk : list string) :
  Forall tight pend -> term_base stk ->
  pop_higher "&" rpn (pend ++ stk) = Ok (rpn ++ pend, stk).
Proof.
  intros Hp Hb. revert rpn. induction Hp as [|op pend Hop Hp IH]; intros rpn.
  - rewrite app_nil_r. destruct stk as [|top stk]; [reflexivity|].
    destruct Hb as [->| ->]; reflexivity.
  - cbn [app pop_higher].
    destruct Hop as [->| ->]; cbn; rewrite IH, <- app_assoc; reflexivity.
Qed.

Lemma pop_higher_or (pend rpn stk : list string) :
  Forall pending_op pend -> expr_base stk ->
  pop_higher "|" rpn (pend ++ stk) = Ok (rpn ++ pend, stk).
Proof.
  intros Hp Hb. revert rpn. induction Hp as [|op pend Hop Hp IH]; intros rpn.
  - rewrite app_nil_r. destruct stk as [|top stk]; [reflexivity|].
    cbn in Hb. subst top. reflexivity.
  - cbn [app pop_higher].
    destruct Hop as [->|[->| ->]]; cbn; rewrite IH, <- app_assoc; reflexivity.
Qed.

Lemma pop_higher_not (rpn stk : list string) :
  factor_base stk -> pop_higher "!" rpn stk = Ok (rpn, stk).
Proof.
  destruct stk as [|top stk]; [reflexivity|].
  intros [->|[->| ->]]; reflexivity.
Qed.

Lemma convert_step_literal (tok : string) (rpn stk : list string) :
  is_literal tok = true ->
  convert_step tok (rpn, stk) = Ok (rpn ++ [tok], stk).
Proof.
  intros H. unfold convert_step. now rewrite (literal_not_operator _ H).
Qed.

Lemma convert_step_open (rpn stk : list string) :
  convert_step "(" (rpn, stk) = Ok (rpn, "(" :: stk).
Proof. reflexivity. Qed.

Lemma convert_step_close (pend rpn stk : list string) :
  ~ In "(" pend ->
  convert_step ")" (rpn, pend ++ "(" :: stk) = Ok (rpn ++ pend, stk).
Proof.
  intros H. cbn. now rewrite pop_to_paren_pending.
Qed.

Lemma convert_step_close_unmatched (rpn stk : list string) :
  ~ In "(" stk ->
  convert_step ")" (rpn, stk) = Ok (rpn ++ stk, []).
Proof.
  intros H. cbn. now rewrite pop_to_paren_all.
Qed.

Lemma convert_step_and (pend rpn stk : list string) :
  Forall tight pend -> term_base stk ->
  convert_step "&" (rpn, pend ++ stk) = Ok (rpn ++ pend, "&" :: stk).
Proof.
  intros Hp Hb. cbn. now rewrite pop_higher_and.
Qed.

Lemma convert_step_or (pend rpn stk : list string) :
  Forall pending_op pend -> expr_base stk ->
  convert_step "|" (rpn, pend ++ stk) = Ok (rpn ++ pend, "|" :: stk).
Proof.
  intros Hp Hb. cbn. now rewrite pop_higher_or.
Qed.

Lemma convert_step_not (rpn stk : list string) :
  factor_base stk ->
  convert_step "!" (rpn, stk) = Ok (rpn, "!" :: stk).
Proof.
  intros Hb. cbn. now rewrite pop_higher_not.
Qed.

End Converter.

(** ** [std::stoll] on literal tokens *)

Section Stoll.

Lemma digit_value_range (c : ascii) :
  is_digit c = true -> (0 <= digit_value c <= 9)%Z.
Proof.
  unfold is_digit, digit_value. intros H.
  apply andb_true_iff in H as [H1 H2].
  apply Nat.leb_le in H1, H2. lia.
Qed.

Lemma digits_value_nonneg (s : string) (acc : Z) :
  (0 <= acc)%Z -> (0 <= digits_value acc s)%Z.
Proof.
  revert acc. induction s as [|c s IH]; intros acc Hacc;
    cbn [digits_value]; [assumption|].
  destruct (is_digit c) eqn:Hc; [|assumption].
  apply IH. pose proof (digit_value_range _ Hc). lia.
Qed.

Lemma stoll_digit_head (c : ascii) (rest : string) :
  is_digit c = true ->
  stoll (String c rest) =
  let v := digits_value 0 (String c rest) in
  if ((LLONG_MIN <=? v) && (v <=? LLONG_MAX))%Z then Ok v
  else Throw (out_of_range "stoll").
Proof.
  intros Hc.
  destruct c as [[] [] [] [] [] [] [] []];
    try (vm_compute in Hc; discriminate Hc); reflexivity.
Qed.

Lemma stoll_literal (tok : string) :
  is_literal tok = true -> (literal_value tok <=? LLONG_MAX)%Z = true ->
  stoll tok = Ok (literal_value tok).
Proof.
  unfold is_literal, literal_value. intros Hl Hv.
  destruct tok as [|c rest]; [discriminate|].
  simpl in Hl. apply andb_true_iff in Hl as [Hc _].
  rewrite (stoll_digit_head _ _ Hc). cbv zeta. rewrite Hv, andb_true_r.
  pose proof (digits_value_nonneg (String c rest) 0 (Z.le_refl 0)) as Hpos.
  replace (LLONG_MIN <=? _)%Z with true; [reflexivity|].
  symmetry. apply Z.leb_le. transitivity 0%Z; [discriminate|exact Hpos].
Qed.

End Stoll.

(** ** The tree builder and the whole pipeline on the grammar *)

Section Builder.

Context {T : Type} (T_eq_dec : forall x y : T, {x = y} + {x <> y}) (cast : Z -> T).

Lemma rpn_loop_app (r1 r2 : list string) (ns : list (Node T)) :
  rpn_loop cast (r1 ++ r2) ns =
  (ns' <- rpn_loop cast r1 ns ;; rpn_loop cast r2 ns').
Proof.
  revert ns. induction r1 as [|op r1 IH]; intros ns; simpl; [reflexivity|].
  destruct (rpn_step cast op ns); simpl; auto.
Qed.

Lemma rpn_step_literal (tok : string) (ns : list (Node T)) :
  is_literal tok = true -> (literal_value tok <=? LLONG_MAX)%Z = true ->
  rpn_step cast tok ns = Ok (LabelNode (cast (literal_value tok)) :: ns).
Proof.
  intros Hl Hv. unfold rpn_step.
  now rewrite (literal_not_operator _ Hl), (stoll_literal _ Hl Hv).
Qed.

Lemma literals_fit_app (l1 l2 : list string) :
  literals_fit (l1 ++ l2) = literals_fit l1 && literals_fit l2.
Proof. apply forallb_app. Qed.

Lemma no_double_not_cons (x : string) (l : list string) :
  x <> "!" -> no_double_not (x :: l) = no_double_not l.
Proof. intros H. apply (no_double_not_app [] l x H). Qed.

Lemma no_double_not_not (l : list string) :
  no_double_not ("!" :: l) = true -> pending_not l = [] /\ no_double_not l = true.
Proof.
  destruct l as [|x l]; [split; reflexivity|].
  cbn [no_double_not pending_not]. intros H.
  apply andb_true_iff in H as [H1 H2]. split; [|exact H2].
  destruct (String.eqb x "!"); [discriminate|reflexivity].
Qed.

Lemma pending_not_tight (ts : list string) : Forall tight (pending_not ts).
Proof.
  destruct ts as [|x ts]; cbn; [constructor|].
  destruct (String.eqb x "!"); constructor; [now right|constructor].
Qed.

Lemma processes_binary (op : string) (mk : Node T -> Node T -> Node T)
      (base1 base2 : list string -> Prop) (P : string -> Prop)
      (ts1 ts2 pend1 pend2 : list string) (t1 t2 : Node T) :
  (forall l r ns, rpn_step cast op (r :: l :: ns) = Ok (mk l r :: ns)) ->
  (forall rpn stk, Forall P pend1 -> base1 stk ->
     convert_step op (rpn, pend1 ++ stk) = Ok (rpn ++ pend1, op :: stk)) ->
  (forall stk, base1 stk -> base2 (op :: stk)) ->
  Forall P pend1 ->
  processes cast base1 ts1 pend1 t1 ->
  processes cast base2 ts2 pend2 t2 ->
  processes cast base1 (ts1 ++ op :: ts2) (pend2 ++ [op]) (mk t1 t2).
Proof.
  intros Hmk Hstep Hbase HP (r1 & Hr1 & Hc1) (r2 & Hr2 & Hc2).
  exists (r1 ++ pend1 ++ r2). split.
  - intros ns.
    replace ((r1 ++ pend1 ++ r2) ++ pend2 ++ [op])
      with ((r1 ++ pend1) ++ (r2 ++ pend2) ++ [op])
      by (now rewrite <- !app_assoc).
    rewrite rpn_loop_app, Hr1. cbn [bind].
    rewrite rpn_loop_app, Hr2. cbn [bind rpn_loop].
    now rewrite Hmk.
  - intros rpn stk Hb.
    rewrite convert_loop_app, (Hc1 _ _ Hb). cbn [bind convert_loop].
    rewrite (Hstep _ _ HP Hb). cbn [bind].
    rewrite (Hc2 _ _ (Hbase _ Hb)).
    now rewrite <- !app_assoc.
Qed.

(** The converter and the builder on the three levels of the grammar. *)
Lemma grammar_processes :
  (forall ts t, Grammar.expr cast ts t ->
     no_double_not ts = true -> literals_fit ts = true ->
     exists pend, Forall pending_op pend /\ processes cast expr_base ts pend t) /\
  (forall ts t, Grammar.term cast ts t ->
     no_double_not ts = true -> literals_fit ts = true ->
     exists pend, Forall tight pend /\ processes cast term_base ts pend t) /\
  (forall ts t, Grammar.factor cast ts t ->
     no_double_not ts = true -> literals_fit ts = true ->
     processes cast (fun stk => factor_base stk \/ pending_not ts = []) ts (pending_not ts) t).
Proof.
  apply Grammar.grammar_mutind.
  - (* expr := term *)
    intros ts t _ IH Hnn Hfit.
    destruct (IH Hnn Hfit) as (pend & Hp & r & Hr & Hc).
    exists pend. split; [now apply tight_pending|].
    exists r. split; [exact Hr|].
    intros rpn stk Hb. apply Hc. destruct stk; [exact I|]. now left.
  - (* expr := expr '|' term *)
    intros ts1 ts2 t1 t2 _ IH1 _ IH2 Hnn Hfit.
    rewrite no_double_not_app in Hnn by discriminate.
    apply andb_true_iff in Hnn as [Hnn1 Hnn2].
    rewrite literals_fit_app in Hfit. apply andb_true_iff in Hfit as [Hfit1 Hfit2].
    change (literals_fit ts2 = true) in Hfit2.
    destruct (IH1 Hnn1 Hfit1) as (pend1 & Hp1 & H1).
    destruct (IH2 Hnn2 Hfit2) as (pend2 & Hp2 & H2).
    exists (pend2 ++ ["|"]). split.
    + apply Forall_app. split; [now apply tight_pending|].
      constructor; [now left|constructor].
    + apply (processes_binary "|" OrNode expr_base term_base pending_op _ _ pend1);
        auto.
      * intros; now apply convert_step_or.
      * intros stk _. now right.
  - (* term := factor *)
    intros ts t _ IH Hnn Hfit.
    destruct (IH Hnn Hfit) as (r & Hr & Hc).
    exists (pending_not ts). split.
    + apply pending_not_tight.
    + exists r. split; [exact Hr|].
      intros rpn stk Hb. apply Hc. left.
      destruct stk; [exact I|]. destruct Hb; [now left|right; now left].
  - (* term := term '&' factor *)
    intros ts1 ts2 t1 t2 _ IH1 _ IH2 Hnn Hfit.
    rewrite no_double_not_app in Hnn by discriminate.
    apply andb_true_iff in Hnn as [Hnn1 Hnn2].
    rewrite literals_fit_app in Hfit. apply andb_true_iff in Hfit as [Hfit1 Hfit2].
    change (literals_fit ts2 = true) in Hfit2.
    destruct (IH1 Hnn1 Hfit1) as (pend1 & Hp1 & H1).
    pose proof (IH2 Hnn2 Hfit2) as H2.
    exists (pending_not ts2 ++ ["&"]). split.
    + apply Forall_app. split.
      * apply pending_not_tight.
      * constructor; [now left|constructor].
    + apply (processes_binary "&" AndNode term_base
               (fun stk => factor_base stk \/ pending_not ts2 = []) tight _ _ pend1);
        auto.
      * intros; now apply convert_step_and.
      * intros stk _. left. right. now right.
  - (* factor := '!' factor *)
    intros ts t _ IH Hnn Hfit.
    apply no_double_not_not in Hnn as [Hpn Hnn].
    change (literals_fit ts = true) in Hfit.
    destruct (IH Hnn Hfit) as (r & Hr & Hc). rewrite Hpn in Hr, Hc.
    exists r. cbn [pending_not String.eqb Ascii.eqb Bool.eqb]. split.
    + intros ns. rewrite rpn_loop_app.
      specialize (Hr ns). rewrite app_nil_r in Hr. rewrite Hr. reflexivity.
    + intros rpn stk [Hb|Hb]; [|discriminate].
      cbn [convert_loop]. rewrite (convert_step_not _ _ Hb). cbn [bind].
      rewrite (Hc rpn ("!" :: stk)) by (now right). reflexivity.
  - (* factor := '(' expr ')' *)
    intros ts t _ IH Hnn Hfit.
    rewrite no_double_not_cons in Hnn by discriminate.
    rewrite no_double_not_app in Hnn by discriminate.
    apply andb_true_iff in Hnn as [Hnn _].
    change (literals_fit (ts ++ [")"]) = true) in Hfit.
    rewrite literals_fit_app in Hfit.
    apply andb_true_iff in Hfit as [Hfit _].
    destruct (IH Hnn Hfit) as (pend & Hp & r & Hr & Hc).
    exists (r ++ pend). cbn [pending_not String.eqb Ascii.eqb Bool.eqb]. split.
    + intros ns. rewrite app_nil_r. apply Hr.
    + intros rpn stk _.
      cbn [convert_loop]. rewrite convert_step_open. cbn [bind].
      rewrite convert_loop_app, (Hc rpn ("(" :: stk) eq_refl).
      cbn [bind convert_loop].
      rewrite convert_step_close by (now apply pending_op_not_paren).
      cbn [bind app]. now rewrite app_assoc.
  - (* factor := LITERAL *)
    intros tok Hl Hnn Hfit.
    unfold literals_fit in Hfit. cbn [forallb] in Hfit.
    rewrite Hl, andb_true_r in Hfit. cbn [negb orb] in Hfit.
    assert (Hpn : pending_not [tok] = []).
    { cbn. destruct (String.eqb_spec tok "!") as [->|]; [discriminate|reflexivity]. }
    rewrite Hpn. exists [tok]. split.
    + intros ns. cbn [app rpn_loop]. now rewrite rpn_step_literal.
    + intros rpn stk _. cbn [convert_loop].
      now rewrite convert_step_literal.
Qed.

End Builder.

(** ** Maximal runs of digits *)

Section Runs.

Lemma concat_tokens_app (l1 l2 : list string) :
  concat_tokens (l1 ++ l2) = (concat_tokens l1 ++ concat_tokens l2)%string.
Proof.
  induction l1 as [|t l1 IH]; simpl; [reflexivity|].
  now rewrite IH, append_assoc.
Qed.

Lemma list_ascii_of_string_app (a b : string) :
  list_ascii_of_string (a ++ b) = list_ascii_of_string a ++ list_ascii_of_string b.
Proof. induction a; simpl; congruence. Qed.

Lemma ends_with_digit_snoc (a : string) (c : ascii) :
  ends_with_digit (a ++ String c "") = is_digit c.
Proof.
  unfold ends_with_digit.
  now rewrite list_ascii_of_string_app, rev_app_distr.
Qed.

Lemma no_adjacent_literals_suffix (l1 l2 : list string) :
  no_adjacent_literals (l1 ++ l2) = true -> no_adjacent_literals l2 = true.
Proof.
  induction l1 as [|t l1 IH]; [auto|].
  change ((t :: l1) ++ l2) with (t :: (l1 ++ l2)). cbn [no_adjacent_literals].
  intros H. apply andb_true_iff in H as [_ H]. auto.
Qed.

Lemma non_literal_token_starts (tok : string) (rest : string) :
  token_ok tok -> is_literal tok = false ->
  starts_with_digit (tok ++ rest) = false /\ ends_with_digit (rest ++ tok) = false.
Proof.
  intros [Hop|Hl] Hnl; [|congruence].
  apply op_token_inv in Hop as (c & -> & Hc).
  rewrite ends_with_digit_snoc. cbn.
  destruct (is_digit c) eqn:Hd; [|auto].
  apply digit_not_op in Hd. congruence.
Qed.

(** In a sequence of well-formed tokens without adjacent literals, the
    characters next to a literal, in the concatenation, are not digits. *)
Lemma literals_are_maximal (ts : list string) :
  Forall token_ok ts -> no_adjacent_literals ts = true ->
  forall l1 t l2, ts = l1 ++ t :: l2 -> is_literal t = true ->
    ends_with_digit (concat_tokens l1) = false /\
    starts_with_digit (concat_tokens l2) = false.
Proof.
  intros Hok Hadj l1 t l2 -> Hl. split.
  - destruct l1 as [|x l1] using rev_ind; [reflexivity|].
    rewrite <- app_assoc in Hok, Hadj. cbn [app] in Hok, Hadj.
    apply no_adjacent_literals_suffix in Hadj.
    cbn [no_adjacent_literals] in Hadj. rewrite Hl, andb_true_r in Hadj.
    apply andb_true_iff in Hadj as [Hx _]. apply negb_true_iff in Hx.
    apply Forall_app in Hok as [_ Hok]. inversion Hok; subst.
    rewrite concat_tokens_app. cbn [concat_tokens]. rewrite append_nil_r.
    now apply non_literal_token_starts.
  - destruct l2 as [|x l2]; [reflexivity|].
    apply no_adjacent_literals_suffix in Hadj.
    cbn [no_adjacent_literals] in Hadj. rewrite Hl in Hadj.
    apply andb_true_iff in Hadj as [Hx _]. apply negb_true_iff in Hx.
    apply Forall_app in Hok as [_ Hok].
    inversion Hok as [|? ? _ Hok']; subst. inversion Hok'; subst.
    cbn [concat_tokens].
    now apply (non_literal_token_starts x (concat_tokens l2)).
Qed.

Lemma no_double_not_after_not (l : list string) :
  hd "" l <> "!" -> no_double_not ("!" :: l) = no_double_not l.
Proof.
  destruct l as [|x l]; [reflexivity|]. cbn [hd no_double_not].
  intros H. apply String.eqb_neq in H. now rewrite H.
Qed.

End Runs.

(** ** From the grammar to the constructor *)

Section Pipeline.

Context {T : Type} (T_eq_dec : forall x y : T, {x = y} + {x <> y}) (cast : Z -> T).

(** The token sequences of the grammar are made of well-formed tokens and
    never put two literals side by side. *)
Lemma grammar_tokens :
  (forall ts t, Grammar.expr cast ts t ->
     Forall token_ok ts /\ no_adjacent_literals ts = true) /\
  (forall ts t, Grammar.term cast ts t ->
     Forall token_ok ts /\ no_adjacent_literals ts = true) /\
  (forall ts t, Grammar.factor cast ts t ->
     Forall token_ok ts /\ no_adjacent_literals ts = true).
Proof.
  assert (Hbin : forall op ts1 ts2,
             is_op_token op = true ->
             Forall token_ok ts1 /\ no_adjacent_literals ts1 = true ->
             Forall token_ok ts2 /\ no_adjacent_literals ts2 = true ->
             Forall token_ok (ts1 ++ op :: ts2) /\
             no_adjacent_literals (ts1 ++ op :: ts2) = true).
  { intros op ts1 ts2 Hop [Hok1 Ha1] [Hok2 Ha2]. split.
    - apply Forall_app. split; [assumption|]. constructor; [now left|assumption].
    - rewrite no_adjacent_literals_app, Ha1, Ha2 by (now apply op_token_not_literal).
      reflexivity. }
  apply Grammar.grammar_mutind; auto.
  - intros ts t _ IH. apply (Hbin "!" [] ts eq_refl); auto.
  - intros ts t _ IH.
    apply (Hbin "(" [] (ts ++ [")"]) eq_refl); [auto|].
    apply (Hbin ")" ts [] eq_refl); auto.
  - intros tok Hl. split; [|reflexivity].
    constructor; [now right|constructor].
Qed.

(** Correctness of the compilation on the grammar: an expression string
    without two consecutive ['!'] whose literals fit [long long] is
    compiled to the tree its derivation denotes. *)
Lemma SyntaxTree_expr (s : string) (ts : list string) (t : Node T) :
  Grammar.expr cast ts t ->
  no_double_not ts = true -> literals_fit ts = true ->
  strip s = concat_tokens ts ->
  SyntaxTree cast s = Ok t.
Proof.
  intros He Hnn Hfit Hs.
  destruct (proj1 grammar_tokens _ _ He) as [Hok Hadj].
  destruct (proj1 (grammar_processes cast) _ _ He Hnn Hfit) as (pend & _ & r & Hr & Hc).
  unfold SyntaxTree.
  rewrite (parse_logic_expression_spaced ts s Hok Hadj Hs). cbn [bind].
  unfold convert2rpn. rewrite (Hc [] [] I). cbn [bind].
  rewrite drain_app, app_nil_r. cbn [app].
  unfold rpn2tree. rewrite Hr. reflexivity.
Qed.

(** The two sides of De Morgan's law, built from two atoms by writing the
    operators around them. *)
Lemma SyntaxTree_not_and (A B : string) (ta tb : list string) (a b : Node T) :
  Grammar.atom cast ta a -> Grammar.atom cast tb b ->
  spaced ta A -> spaced tb B ->
  no_double_not ta = true -> no_double_not tb = true ->
  literals_fit ta = true -> literals_fit tb = true ->
  SyntaxTree cast ("!(" ++ A ++ "&" ++ B ++ ")") = Ok (NotNode (AndNode a b)).
Proof.
  intros [FA NA] [FB NB] HsA HsB HnA HnB HfA HfB.
  destruct (proj2 (proj2 grammar_tokens) _ _ FA) as [OkA _].
  destruct (proj2 (proj2 grammar_tokens) _ _ FB) as [OkB _].
  pose proof (spaced_strip _ _ OkA HsA) as SA.
  pose proof (spaced_strip _ _ OkB HsB) as SB.
  apply (SyntaxTree_expr _ ("!" :: "(" :: (ta ++ "&" :: tb) ++ [")"])).
  - apply Grammar.expr_term, Grammar.term_factor, Grammar.factor_not,
      Grammar.factor_paren, Grammar.expr_term, Grammar.term_and;
      [apply Grammar.term_factor|]; assumption.
  - rewrite no_double_not_after_not by discriminate.
    rewrite no_double_not_cons by discriminate.
    rewrite no_double_not_app by discriminate.
    rewrite no_double_not_app by discriminate.
    now rewrite HnA, HnB.
  - change (literals_fit ((ta ++ "&" :: tb) ++ [")"]) = true).
    rewrite !literals_fit_app, HfA.
    change (literals_fit ("&" :: tb)) with (literals_fit tb).
    now rewrite HfB.
  - cbn [concat_tokens]. rewrite !concat_tokens_app. cbn [concat_tokens].
    change ("!(" ++ A ++ "&" ++ B ++ ")")%string
      with ("!" ++ "(" ++ A ++ "&" ++ B ++ ")")%string.
    rewrite !strip_app, SA, SB.
    change (strip "!") with "!". change (strip "(") with "(".
    change (strip "&") with "&". change (strip ")") with ")".
    now rewrite !append_assoc, append_nil_r.
Qed.

Lemma SyntaxTree_or_nots (A B : string) (ta tb : list string) (a b : Node T) :
  Grammar.atom cast ta a -> Grammar.atom cast tb b ->
  spaced ta A -> spaced tb B ->
  no_double_not ta = true -> no_double_not tb = true ->
  literals_fit ta = true -> literals_fit tb = true ->
  SyntaxTree cast ("!" ++ A ++ "|!" ++ B) = Ok (OrNode (NotNode a) (NotNode b)).
Proof.
  intros [FA NA] [FB NB] HsA HsB HnA HnB HfA HfB.
  destruct (proj2 (proj2 grammar_tokens) _ _ FA) as [OkA _].
  destruct (proj2 (proj2 grammar_tokens) _ _ FB) as [OkB _].
  pose proof (spaced_strip _ _ OkA HsA) as SA.
  pose proof (spaced_strip _ _ OkB HsB) as SB.
  apply (SyntaxTree_expr _ (("!" :: ta) ++ "|" :: "!" :: tb)).
  - apply Grammar.expr_or;
      [apply Grammar.expr_term|]; apply Grammar.term_factor, Grammar.factor_not;
      assumption.
  - rewrite no_double_not_app by discriminate.
    rewrite !no_double_not_after_not by assumption.
    now rewrite HnA, HnB.
  - rewrite literals_fit_app.
    change (literals_fit ("!" :: ta)) with (literals_fit ta).
    change (literals_fit ("|" :: "!" :: tb)) with (literals_fit tb).
    now rewrite HfA, HfB.
  - rewrite concat_tokens_app. cbn [concat_tokens].
    change ("!" ++ A ++ "|!" ++ B)%string
      with ("!" ++ A ++ "|" ++ "!" ++ B)%string.
    rewrite !strip_app, SA, SB.
    change (strip "!") with "!". change (strip "|") with "|".
    now rewrite !append_assoc.
Qed.

Lemma std_find_end (labels : list T) (v : T) :
  std_find T_eq_dec labels v = List.length labels <-> ~ In v labels.
Proof.
  induction labels as [|x labels IH]; simpl; [tauto|].
  destruct (T_eq_dec x v) as [->|Hne].
  - split; [discriminate|]. intros H. elim H. now left.
  - split.
    + intros H [E|Hin]; [contradiction|]. apply IH in Hin; [assumption|lia].
    + intros H. f_equal. apply IH. tauto.
Qed.

Lemma check_label (v : T) (labels : list T) :
  check T_eq_dec (LabelNode v) labels = true <-> In v labels.
Proof.
  cbn [check]. rewrite negb_true_iff, Nat.eqb_neq, std_find_end.
  destruct (in_dec T_eq_dec v labels); tauto.
Qed.

End Pipeline.

(** ** The claims *)

Section Claims.

Context {T : Type} (T_eq_dec : forall x y : T, {x = y} + {x <> y}) (cast : Z -> T).

(** C2. A Label leaf with value [v] checks true exactly when [v] is a
    member of the label collection; hence two collections with the same
    members (whatever their order and duplicates) give the same answer. *)
Theorem label_check_is_membership (v : T) (labels : list T) :
  (check T_eq_dec (LabelNode v) labels = true <-> In v labels) /\
  (forall labels' : list T,
      (forall x, In x labels <-> In x labels') ->
      check T_eq_dec (LabelNode v) labels' = check T_eq_dec (LabelNode v) labels).
Proof.
  split; [apply check_label|].
  intros labels' Hsame.
  destruct (check T_eq_dec (LabelNode v) labels) eqn:E.
  - apply check_label. apply Hsame. now apply check_label in E.
  - apply not_true_is_false. intros E'.
    apply check_label, Hsame, (check_label T_eq_dec) in E'. congruence.
Qed.

(** C3, as amended. Every expression string of the grammar, with any
    spacing between its tokens, in which no ['!'] immediately follows
    another ['!'] and every literal is at most [LLONG_MAX], is constructed
    successfully: the constructor returns the tree the derivation
    denotes. *)
Theorem construction_succeeds_on_grammar
    (s : string) (ts : list string) (t : Node T)
    (Hexpr : Grammar.expr cast ts t) (Hspaced : spaced ts s)
    (Hnot : no_double_not ts = true) (Hfit : literals_fit ts = true) :
  SyntaxTree cast s = Ok t.
Proof.
  apply (SyntaxTree_expr cast s ts t Hexpr Hnot Hfit).
  apply spaced_strip; [|exact Hspaced].
  apply (proj1 (grammar_tokens cast) _ _ Hexpr).
Qed.

(** C4. The tree builder has no check for missing operands: on ["&1"] the
    postfix sequence is [1 &], and the second [top()] is called on an empty
    stack, which is undefined behaviour and not an exception; the same
    holds for every operator that finds too few nodes. *)
Theorem missing_operand_is_undefined :
  convert2rpn ["&"; "1"] = Ok ["1"; "&"] /\
  rpn2tree cast ["1"; "&"] = Undefined /\
  SyntaxTree cast "&1" = Undefined /\
  (forall n : Node T, rpn_step cast "&" [n] = Undefined) /\
  (forall n : Node T, rpn_step cast "|" [n] = Undefined) /\
  rpn_step cast "&" [] = Undefined /\
  rpn_step cast "|" [] = Undefined /\
  rpn_step cast "!" [] = Undefined.
Proof. repeat split. Qed.

(** C5. The empty string, and any string of spaces and tabs only, is
    rejected by the constructor: the size check of the tree builder throws
    its logic error, and no tree is produced. *)
Theorem blank_expression_is_rejected
    (s : string) (Hblank : all_chars is_blank s = true) :
  SyntaxTree cast s = Throw (logic_error "Extra label").
Proof.
  unfold SyntaxTree, parse_logic_expression.
  now rewrite parse_loop_strip, (strip_blank s Hblank).
Qed.

(** C6. De Morgan consistency breaks on a negated operand: with [A = "!1"]
    and [B = "2"], ["!(A&B)"] is ["!(!1&2)"] and is constructed, while
    ["!A|!B"] is ["!!1|!2"], whose two leading ['!'] pop each other in the
    converter: its postfix sequence starts with an operator and the tree
    builder calls [top()] on an empty stack. With the operand parenthesised,
    ["!(!1)|!2"] is constructed, and the two trees check alike. *)
Theorem de_morgan_undefined_on_negated_operand :
  SyntaxTree cast "!(!1&2)" =
    Ok (NotNode (AndNode (NotNode (LabelNode (cast 1))) (LabelNode (cast 2)))) /\
  convert2rpn ["!"; "!"; "1"; "|"; "!"; "2"] = Ok ["!"; "1"; "!"; "2"; "!"; "|"] /\
  SyntaxTree cast "!!1|!2" = Undefined /\
  (forall L : list T, compile_and_check T_eq_dec cast "!!1|!2" L = Undefined) /\
  SyntaxTree cast "!(!1)|!2" =
    Ok (OrNode (NotNode (NotNode (LabelNode (cast 1)))) (NotNode (LabelNode (cast 2)))) /\
  (forall L : list T,
      compile_and_check T_eq_dec cast "!(!1&2)" L =
      compile_and_check T_eq_dec cast "!(!1)|!2" L).
Proof.
  split; [reflexivity|]. split; [reflexivity|]. split; [reflexivity|].
  split; [reflexivity|]. split; [reflexivity|].
  intros L. unfold compile_and_check, SyntaxTree_check.
  change (SyntaxTree cast "!(!1&2)") with
    (Ok (NotNode (AndNode (NotNode (LabelNode (cast 1))) (LabelNode (cast 2))))).
  change (SyntaxTree cast "!(!1)|!2") with
    (Ok (OrNode (NotNode (NotNode (LabelNode (cast 1)))) (NotNode (LabelNode (cast 2))))).
  cbn [bind]. f_equal.
  change (check T_eq_dec (NotNode (AndNode (NotNode (LabelNode (cast 1))) (LabelNode (cast 2)))) L)
    with (negb (if negb (negb (check T_eq_dec (LabelNode (cast 1)) L)) then false
                else check T_eq_dec (LabelNode (cast 2)) L)).
  change (check T_eq_dec (OrNode (NotNode (NotNode (LabelNode (cast 1))))
                                 (NotNode (LabelNode (cast 2)))) L)
    with (if negb (negb (check T_eq_dec (LabelNode (cast 1)) L)) then true
          else negb (check T_eq_dec (LabelNode (cast 2)) L)).
  now destruct (check T_eq_dec (LabelNode (cast 1)) L),
               (check T_eq_dec (LabelNode (cast 2)) L).
Qed.

(** X21. De Morgan consistency for operands that are atoms: when
    [A] and [B] each spell a literal or a parenthesised expression of the
    grammar (no ['!'] immediately followed by ['!'], literals at most
    [LLONG_MAX]), both ["!(A&B)"] and ["!A|!B"] compile, and they check to
    the same boolean on every label collection. *)
Theorem de_morgan_on_atoms
    (A B : string) (ta tb : list string) (a b : Node T) (L : list T)
    (HA : Grammar.atom cast ta a) (HB : Grammar.atom cast tb b)
    (HsA : spaced ta A) (HsB : spaced tb B)
    (HnA : no_double_not ta = true) (HnB : no_double_not tb = true)
    (HfA : literals_fit ta = true) (HfB : literals_fit tb = true) :
  exists r : bool,
    compile_and_check T_eq_dec cast ("!(" ++ A ++ "&" ++ B ++ ")") L = Ok r /\
    compile_and_check T_eq_dec cast ("!" ++ A ++ "|!" ++ B) L = Ok r.
Proof.
  unfold compile_and_check, SyntaxTree_check.
  rewrite (SyntaxTree_not_and cast A B ta tb a b) by assumption.
  rewrite (SyntaxTree_or_nots cast A B ta tb a b) by assumption.
  cbn [bind check].
  exists (negb (if negb (check T_eq_dec a L) then false else check T_eq_dec b L)).
  split; [reflexivity|].
  now destruct (check T_eq_dec a L), (check T_eq_dec b L).
Qed.

(** C7. A [")"] met while the operator stack holds no ["("] raises no
    error: the converter pops the whole stack into the output and goes on
    with the next token; ["1)"] compiles to the leaf 1. *)
Theorem unmatched_close_paren_is_tolerated
    (rpn stk rest : list string)
    (Hno_open : existsb (String.eqb "(") stk = false) :
  convert_step ")" (rpn, stk) = Ok (rpn ++ stk, []) /\
  convert_loop (")" :: rest) (rpn, stk) = convert_loop rest (rpn ++ stk, []) /\
  convert2rpn ["1"; ")"] = Ok ["1"] /\
  SyntaxTree cast "1)" = Ok (LabelNode (cast 1)).
Proof.
  assert (Hstep : convert_step ")" (rpn, stk) = Ok (rpn ++ stk, [])).
  { apply convert_step_close_unmatched. intros Hin.
    assert (E : existsb (String.eqb "(") stk = true)
      by (apply existsb_exists; exists "("; split; [exact Hin|reflexivity]).
    congruence. }
  split; [exact Hstep|]. split; [|split; reflexivity].
  cbn [convert_loop]. now rewrite Hstep.
Qed.

(** C8. Two consecutive ['!'] are not compiled as a nested negation: the
    second ['!'] pops the first one (equal precedence), the postfix
    sequence of ["!!1"] is [! 1 !], and the tree builder calls [top()] on
    an empty stack. The parenthesised ["!(!1)"] does compile to the double
    negation. *)
Theorem double_negation_is_undefined :
  convert2rpn ["!"; "!"; "1"] = Ok ["!"; "1"; "!"] /\
  rpn2tree cast ["!"; "1"; "!"] = Undefined /\
  SyntaxTree cast "!!1" = Undefined /\
  SyntaxTree cast "!(!1)" = Ok (NotNode (NotNode (LabelNode (cast 1)))) /\
  SyntaxTree cast "1&!!2" =
    Ok (AndNode (NotNode (LabelNode (cast 1))) (NotNode (LabelNode (cast 2)))).
Proof. repeat split. Qed.

(** C9. A ["("] still on the operator stack at the end of the input is
    drained into the postfix output with the other operators, and the tree
    builder, whose last branch takes every operator other than ["|"] and
    ["&"], wraps the top node in a Not node: ["(1"] compiles to
    [Not (Label 1)], whose check on [[1]] is false. *)
Theorem stray_open_paren_becomes_not :
  (forall rpn stk : list string, drain rpn stk = rpn ++ stk) /\
  convert2rpn ["("; "1"] = Ok ["1"; "("] /\
  (forall (n : Node T) (ns : list (Node T)),
      rpn_step cast "(" (n :: ns) = Ok (NotNode n :: ns) /\
      rpn_step cast "(" (n :: ns) = rpn_step cast "!" (n :: ns)) /\
  SyntaxTree cast "(1" = Ok (NotNode (LabelNode (cast 1))) /\
  compile_and_check T_eq_dec cast "(1" [cast 1] = Ok false.
Proof.
  split; [apply drain_app|]. repeat split.
  unfold compile_and_check, SyntaxTree_check.
  change (SyntaxTree cast "(1") with (Ok (NotNode (LabelNode (cast 1)))).
  cbn [bind check std_find List.length].
  destruct (T_eq_dec (cast 1) (cast 1)); [reflexivity|congruence].
Qed.

(** C10. On an input made of spaces, tabs, operator and parenthesis
    characters and digits, the tokenizer succeeds; the concatenation of its
    tokens is the input without its spaces and tabs; every token is a single
    operator or parenthesis character or a non-empty run of digits; and each
    such run is maximal: in the concatenation, the character before it and
    the character after it, if any, are not digits. *)
Theorem tokenizer_faithful
    (s : string) (Hvalid : all_chars valid_char s = true) :
  exists ts : list string,
    parse_logic_expression s = Ok ts /\
    concat_tokens ts = strip s /\
    Forall token_ok ts /\
    (forall l1 t l2, ts = l1 ++ t :: l2 -> is_literal t = true ->
       ends_with_digit (concat_tokens l1) = false /\
       starts_with_digit (concat_tokens l2) = false).
Proof.
  destruct (parse_loop_spec s Hvalid "" eq_refl) as (ts & Hts & Hcat & Hok & Hadj & _).
  exists ts. repeat split; try assumption.
  - eapply literals_are_maximal; eauto.
  - eapply literals_are_maximal; eauto.
Qed.

End Claims.

(** ** Concrete instances *)

Section Instances.

(** C2 at [T = int64_t]: label 3 in [[3; 1; 3]] and in [[1; 3]]. *)
Lemma label_check_is_membership_int64 :
  (check Z.eq_dec (LabelNode 3%Z) [3%Z; 1%Z; 3%Z] = true <-> In 3%Z [3%Z; 1%Z; 3%Z]) /\
  check Z.eq_dec (LabelNode 3%Z) [1%Z; 3%Z] =
  check Z.eq_dec (LabelNode 3%Z) [3%Z; 1%Z; 3%Z].
Proof.
  destruct (label_check_is_membership Z.eq_dec 3%Z [3%Z; 1%Z; 3%Z]) as [Hiff Hsame].
  split; [exact Hiff|].
  apply Hsame. intros x. simpl. tauto.
Defined.

(** C3: a literal above [LLONG_MAX] is an expression of the grammar, and
    its construction ends with the [std::out_of_range] of [std::stoll]. *)
Lemma overflowing_literal_fails_construction :
  Grammar.generates cast_int64 "9223372036854775808" /\
  SyntaxTree cast_int64 "9223372036854775808" = Throw (out_of_range "stoll").
Proof.
  split; [|reflexivity].
  exists ["9223372036854775808"],
         (LabelNode (cast_int64 (literal_value "9223372036854775808"))).
  split.
  - apply Grammar.expr_term, Grammar.term_factor, Grammar.factor_literal.
    reflexivity.
  - exact (spaced_cons "" "9223372036854775808" [] "" eq_refl (spaced_nil "" eq_refl)).
Qed.

(** C3, as amended, at the string [" 1 & ( 2|!3 )"]. *)
Lemma construction_succeeds_on_grammar_example :
  let ts := ["1"; "&"; "("; "2"; "|"; "!"; "3"; ")"] in
  let t := AndNode (LabelNode 1%Z)
                   (OrNode (LabelNode 2%Z) (NotNode (LabelNode 3%Z))) in
  Grammar.expr cast_int64 ts t /\
  spaced ts " 1 & ( 2|!3 )" /\
  no_double_not ts = true /\
  literals_fit ts = true /\
  SyntaxTree cast_int64 " 1 & ( 2|!3 )" = Ok t.
Proof.
  intros ts t.
  assert (Hexpr : Grammar.expr cast_int64 ts t).
  { apply Grammar.expr_term.
    apply (Grammar.term_and cast_int64 ["1"] ["("; "2"; "|"; "!"; "3"; ")"]).
    - apply Grammar.term_factor, (Grammar.factor_literal cast_int64 "1"). reflexivity.
    - apply (Grammar.factor_paren cast_int64 ["2"; "|"; "!"; "3"]).
      apply (Grammar.expr_or cast_int64 ["2"] ["!"; "3"]).
      + apply Grammar.expr_term, Grammar.term_factor,
          (Grammar.factor_literal cast_int64 "2"). reflexivity.
      + apply Grammar.term_factor, Grammar.factor_not,
          (Grammar.factor_literal cast_int64 "3"). reflexivity. }
  assert (Hspaced : spaced ts " 1 & ( 2|!3 )").
  { apply (spaced_cons " " "1" _ " & ( 2|!3 )"); [reflexivity|].
    apply (spaced_cons " " "&" _ " ( 2|!3 )"); [reflexivity|].
    apply (spaced_cons " " "(" _ " 2|!3 )"); [reflexivity|].
    apply (spaced_cons " " "2" _ "|!3 )"); [reflexivity|].
    apply (spaced_cons "" "|" _ "!3 )"); [reflexivity|].
    apply (spaced_cons "" "!" _ "3 )"); [reflexivity|].
    apply (spaced_cons "" "3" _ " )"); [reflexivity|].
    apply (spaced_cons " " ")" _ ""); [reflexivity|].
    apply spaced_nil. reflexivity. }
  split; [exact Hexpr|]. split; [exact Hspaced|].
  split; [reflexivity|]. split; [reflexivity|].
  exact (construction_succeeds_on_grammar cast_int64 _ ts t Hexpr Hspaced
           eq_refl eq_refl).
Defined.

(** C5 at a string of two spaces and a tab. *)
Lemma blank_expression_is_rejected_example :
  all_chars is_blank ("  " ++ tab) = true /\
  SyntaxTree cast_int64 ("  " ++ tab) = Throw (logic_error "Extra label").
Proof.
  split; [reflexivity|].
  apply (blank_expression_is_rejected cast_int64 ("  " ++ tab)). reflexivity.
Defined.

(** X21 at [A = "(1|2)"] and [B = " 3"] on the labels
    [[2; 3]]. *)
Lemma de_morgan_on_atoms_example :
  let ta := ["("; "1"; "|"; "2"; ")"] in
  let a := OrNode (LabelNode 1%Z) (LabelNode 2%Z) in
  (Grammar.atom cast_int64 ta a /\ Grammar.atom cast_int64 ["3"] (LabelNode 3%Z) /\
   spaced ta "(1|2)" /\ spaced ["3"] " 3" /\
   no_double_not ta = true /\ no_double_not ["3"] = true /\
   literals_fit ta = true /\ literals_fit ["3"] = true) /\
  exists r : bool,
    compile_and_check Z.eq_dec cast_int64 ("!(" ++ "(1|2)" ++ "&" ++ " 3" ++ ")")
      [2%Z; 3%Z] = Ok r /\
    compile_and_check Z.eq_dec cast_int64 ("!" ++ "(1|2)" ++ "|!" ++ " 3")
      [2%Z; 3%Z] = Ok r.
Proof.
  intros ta a.
  assert (HA : Grammar.atom cast_int64 ta a).
  { split; [|discriminate].
    apply (Grammar.factor_paren cast_int64 ["1"; "|"; "2"]).
    apply (Grammar.expr_or cast_int64 ["1"] ["2"]).
    - apply Grammar.expr_term, Grammar.term_factor,
        (Grammar.factor_literal cast_int64 "1"). reflexivity.
    - apply Grammar.term_factor, (Grammar.factor_literal cast_int64 "2").
      reflexivity. }
  assert (HB : Grammar.atom cast_int64 ["3"] (LabelNode 3%Z)).
  { split; [|discriminate].
    apply (Grammar.factor_literal cast_int64 "3"). reflexivity. }
  assert (HsA : spaced ta "(1|2)").
  { apply (spaced_cons "" "(" _ "1|2)"); [reflexivity|].
    apply (spaced_cons "" "1" _ "|2)"); [reflexivity|].
    apply (spaced_cons "" "|" _ "2)"); [reflexivity|].
    apply (spaced_cons "" "2" _ ")"); [reflexivity|].
    apply (spaced_cons "" ")" _ ""); [reflexivity|].
    apply spaced_nil. reflexivity. }
  assert (HsB : spaced ["3"] " 3").
  { apply (spaced_cons " " "3" _ ""); [reflexivity|].
    apply spaced_nil. reflexivity. }
  split; [repeat split; solve [assumption | apply HA | apply HB | discriminate]|].
  exact (de_morgan_on_atoms Z.eq_dec cast_int64 "(1|2)" " 3" ta ["3"] a
           (LabelNode 3%Z) [2%Z; 3%Z] HA HB HsA HsB eq_refl eq_refl eq_refl eq_refl).
Defined.

(** C7 with the operators [&] and [|] on the stack. *)
Lemma unmatched_close_paren_is_tolerated_example :
  existsb (String.eqb "(") ["&"; "|"] = false /\
  convert_step ")" (["1"; "2"], ["&"; "|"]) = Ok (["1"; "2"] ++ ["&"; "|"], []) /\
  convert_loop [")"; "3"] (["1"; "2"], ["&"; "|"]) =
    convert_loop ["3"] (["1"; "2"] ++ ["&"; "|"], []) /\
  convert2rpn ["1"; ")"] = Ok ["1"] /\
  SyntaxTree cast_int64 "1)" = Ok (LabelNode 1%Z).
Proof.
  split; [reflexivity|].
  apply (unmatched_close_paren_is_tolerated cast_int64 ["1"; "2"] ["&"; "|"] ["3"]).
  reflexivity.
Defined.

(** C10 at the input ["12 3&(4"]. *)
Lemma tokenizer_faithful_example :
  all_chars valid_char "12 3&(4" = true /\
  exists ts : list string,
    parse_logic_expression "12 3&(4" = Ok ts /\
    concat_tokens ts = strip "12 3&(4" /\
    Forall token_ok ts /\
    (forall l1 t l2, ts = l1 ++ t :: l2 -> is_literal t = true ->
       ends_with_digit (concat_tokens l1) = false /\
       starts_with_digit (concat_tokens l2) = false).
Proof.
  split; [reflexivity|].
  apply (tokenizer_faithful "12 3&(4"). reflexivity.
Defined.

End Instances.

(** * Further properties of the pipeline *)

(** ** The tokenizer on rejected and on spelled-out inputs *)

Section TokenizerMore.

Lemma parse_loop_invalid (s : string) (tokens : list string) (cur : string) :
  all_chars valid_char s = false ->
  parse_loop s tokens cur = Throw (logic_error "Token is incorrect").
Proof.
  revert tokens cur. induction s as [|c s IH]; intros tokens cur; [discriminate|].
  cbn [all_chars parse_loop]. unfold valid_char.
  destruct (is_blank c); [cbn; auto|].
  destruct (is_op_char c); [cbn; auto|].
  destruct (is_digit c); cbn; auto.
Qed.

Lemma parse_logic_expression_valid (s : string) :
  all_chars valid_char s = true ->
  exists ts, parse_logic_expression s = Ok ts /\ Forall token_ok ts /\
             no_adjacent_literals ts = true /\ concat_tokens ts = strip s.
Proof.
  intros H.
  destruct (parse_loop_spec s H "" eq_refl) as (ts & Hts & Hcat & Hok & Hadj & _).
  exists ts. auto.
Qed.

Lemma parse_logic_expression_ok_valid (s : string) (ts : list string) :
  parse_logic_expression s = Ok ts -> all_chars valid_char s = true.
Proof.
  intros H. destruct (all_chars valid_char s) eqn:E; [reflexivity|].
  unfold parse_logic_expression in H.
  rewrite (parse_loop_invalid s [] "" E) in H. discriminate.
Qed.

Lemma parse_logic_expression_tokens (s : string) (ts : list string) :
  parse_logic_expression s = Ok ts ->
  Forall token_ok ts /\ no_adjacent_literals ts = true /\ concat_tokens ts = strip s.
Proof.
  intros H.
  destruct (parse_logic_expression_valid s (parse_logic_expression_ok_valid s ts H))
    as (ts' & Hts' & Hrest).
  rewrite H in Hts'. injection Hts' as <-. exact Hrest.
Qed.

Lemma token_ok_operator (tok : string) :
  token_ok tok -> is_operator tok = negb (is_literal tok).
Proof.
  intros [H|H].
  - rewrite (op_token_not_literal _ H).
    apply op_token_cases in H. intuition subst; reflexivity.
  - now rewrite (literal_not_operator _ H), H.
Qed.

End TokenizerMore.

(** ** The converter on arbitrary token sequences *)

Section ConverterMore.

Lemma pop_to_paren_spec (stk rpn : list string) :
  stack_ops stk ->
  exists popped rest,
    stk = popped ++ rest /\ Forall pending_op popped /\
    pop_to_paren rpn stk = (rpn ++ popped, rest).
Proof.
  intros H. revert rpn. induction H as [|top stk Htop Hstk IH]; intros rpn.
  - exists [], []. cbn. now rewrite app_nil_r.
  - cbn [pop_to_paren]. destruct (String.eqb_spec top "(") as [->|Hne].
    + exists [], ("(" :: stk). cbn. now rewrite app_nil_r.
    + destruct Htop as [->|Htop]; [contradiction|].
      destruct (IH (rpn ++ [top])) as (popped & rest & -> & Hp & E).
      exists (top :: popped), rest. rewrite E, <- app_assoc.
      repeat split. now constructor.
Qed.

Lemma higher_precedence_total (op1 op2 : string) :
  pending_op op1 -> pending_op op2 -> exists b, higher_precedence op1 op2 = Ok b.
Proof.
  intros [->|[->| ->]] [->|[->| ->]]; eexists; reflexivity.
Qed.

Lemma pop_higher_spec (token : string) (stk rpn : list string) :
  pending_op token -> stack_ops stk ->
  exists popped rest,
    stk = popped ++ rest /\ Forall pending_op popped /\
    pop_higher token rpn stk = Ok (rpn ++ popped, rest).
Proof.
  intros Htok H. revert rpn. induction H as [|top stk Htop Hstk IH]; intros rpn.
  - exists [], []. cbn. now rewrite app_nil_r.
  - cbn [pop_higher]. destruct (String.eqb_spec top "(") as [->|Hne].
    + exists [], ("(" :: stk). cbn. now rewrite app_nil_r.
    + destruct Htop as [->|Htop]; [contradiction|].
      destruct (higher_precedence_total top token Htop Htok) as [[] Hb];
        rewrite Hb; cbn [bind].
      * destruct (IH (rpn ++ [top])) as (popped & rest & -> & Hp & E).
        exists (top :: popped), rest. rewrite E, <- app_assoc.
        repeat split. now constructor.
      * exists [], (top :: stk). cbn. now rewrite app_nil_r.
Qed.

Lemma stack_ops_app (l1 l2 : list string) :
  stack_ops (l1 ++ l2) -> stack_ops l1 /\ stack_ops l2.
Proof. apply Forall_app. Qed.

Lemma stack_ops_discard (stk : list string) :
  stack_ops stk -> stack_ops (discard_paren stk).
Proof.
  intros H. destruct H as [|top stk Htop Hstk]; cbn; [constructor|].
  destruct (String.eqb top "("); [assumption|now constructor].
Qed.

(** Every iteration succeeds on a stack of operators, follows [step_spec]
    and leaves a stack of operators. *)
Lemma convert_step_spec (token : string) (rpn stk : list string) :
  stack_ops stk ->
  exists st', convert_step token (rpn, stk) = Ok st' /\
              step_spec token (rpn, stk) st' /\ stack_ops (snd st').
Proof.
  intros Hstk. unfold convert_step.
  destruct (is_operator token) eqn:Hop; cbn [negb].
  - destruct (String.eqb_spec token "(") as [->|Hno].
    { eexists. split; [reflexivity|]. split; [now constructor|].
      constructor; [now left|assumption]. }
    destruct (String.eqb_spec token ")") as [->|Hnc].
    { destruct (pop_to_paren_spec stk rpn Hstk) as (popped & rest & -> & Hp & E).
      rewrite E. eexists. split; [reflexivity|].
      split; [now constructor|].
      apply stack_ops_discard. now apply stack_ops_app in Hstk. }
    assert (Htok : pending_op token).
    { apply is_operator_cases in Hop. unfold pending_op. intuition. }
    destruct (pop_higher_spec token stk rpn Htok Hstk) as (popped & rest & -> & Hp & E).
    rewrite E. cbn [bind]. eexists. split; [reflexivity|].
    split; [now constructor|].
    constructor; [now right|]. now apply stack_ops_app in Hstk.
  - eexists. split; [reflexivity|]. split; [now constructor|assumption].
Qed.

End ConverterMore.

(** ** What the converter keeps *)

Section ConverterInvariants.

Lemma pending_op_operator (tok : string) : pending_op tok -> is_operator tok = true.
Proof. intros [->|[->| ->]]; reflexivity. Qed.

Lemma filter_operand_pending (popped : list string) :
  Forall pending_op popped -> filter is_operand popped = [].
Proof.
  induction 1 as [|tok popped Htok _ IH]; [reflexivity|].
  cbn [filter]. unfold is_operand at 1. now rewrite (pending_op_operator _ Htok).
Qed.

Lemma count_discard_paren (stk : list string) (tok : string) :
  tok <> "(" ->
  count_occ string_dec (discard_paren stk) tok = count_occ string_dec stk tok.
Proof.
  intros Hne. destruct stk as [|top stk]; [reflexivity|]. cbn [discard_paren].
  destruct (String.eqb_spec top "(") as [->|_]; [|reflexivity].
  now rewrite count_occ_cons_neq by congruence.
Qed.

Lemma pending_not_close (popped : list string) :
  Forall pending_op popped -> ~ In ")" popped.
Proof.
  intros H Hin. rewrite Forall_forall in H.
  destruct (H _ Hin) as [E|[E|E]]; discriminate.
Qed.

Lemma stack_ops_not_close (stk : list string) : stack_ops stk -> ~ In ")" stk.
Proof.
  intros H Hin. unfold stack_ops in H. rewrite Forall_forall in H.
  destruct (H _ Hin) as [E|[E|[E|E]]]; discriminate.
Qed.

(** One iteration: operands go to the output in order, tokens other than
    parentheses are neither lost nor duplicated, nothing is invented and no
    [")"] reaches the output. *)
Lemma step_spec_keeps (token : string) (st st' : list string * list string) :
  step_spec token st st' ->
  filter is_operand (fst st') = filter is_operand (fst st) ++ filter is_operand [token] /\
  (forall tok, tok <> "(" -> tok <> ")" ->
     count_occ string_dec (fst st' ++ snd st') tok =
     count_occ string_dec (fst st ++ snd st) tok + count_occ string_dec [token] tok) /\
  (forall x, In x (fst st' ++ snd st') -> In x (fst st ++ snd st) \/ x = token) /\
  (~ In ")" (fst st) -> ~ In ")" (fst st')).
Proof.
  intros H. destruct H as [rpn stk Hop|rpn stk ->|rpn popped rest -> Hp|rpn popped rest Htok Hp];
    cbn [fst snd].
  - repeat split.
    + now rewrite filter_app.
    + intros tok _ _. rewrite !count_occ_app. lia.
    + intros x Hx. rewrite !in_app_iff in *. cbn in Hx. intuition.
    + intros Hn Hin. apply in_app_iff in Hin as [Hin|[E|[]]]; [auto|].
      subst token. discriminate.
  - repeat split.
    + cbn. now rewrite app_nil_r.
    + intros tok Hno _. rewrite !count_occ_app.
      rewrite !count_occ_cons_neq by congruence. cbn. lia.
    + intros x Hx. rewrite !in_app_iff in *. cbn in Hx. intuition.
    + auto.
  - repeat split.
    + rewrite filter_app, (filter_operand_pending _ Hp). reflexivity.
    + intros tok Hno Hnc. rewrite !count_occ_app, count_discard_paren by assumption.
      rewrite count_occ_cons_neq by congruence. cbn. lia.
    + intros x Hx. left. rewrite !in_app_iff in *.
      destruct Hx as [[Hx|Hx]|Hx]; auto.
      right. right. destruct rest as [|top rest]; [destruct Hx|].
      cbn [discard_paren] in Hx. destruct (String.eqb top "("); [now right|assumption].
    + intros Hn Hin. apply in_app_iff in Hin as [Hin|Hin]; [auto|].
      now apply (pending_not_close popped).
  - repeat split.
    + rewrite filter_app, (filter_operand_pending _ Hp). cbn [filter].
      unfold is_operand at 3. rewrite (pending_op_operator _ Htok). reflexivity.
    + intros tok _ _. rewrite !count_occ_app. cbn [count_occ].
      destruct (string_dec token tok); lia.
    + intros x Hx. rewrite !in_app_iff in *. cbn in Hx. intuition.
    + intros Hn Hin. apply in_app_iff in Hin as [Hin|Hin]; [auto|].
      now apply (pending_not_close popped).
Qed.

(** The whole loop, from any state whose stack holds operators only. *)
Lemma convert_loop_keeps (ts : list string) (st : list string * list string) :
  stack_ops (snd st) ->
  exists st',
    convert_loop ts st = Ok st' /\ stack_ops (snd st') /\
    filter is_operand (fst st') = filter is_operand (fst st) ++ filter is_operand ts /\
    (forall tok, tok <> "(" -> tok <> ")" ->
       count_occ string_dec (fst st' ++ snd st') tok =
       count_occ string_dec (fst st ++ snd st) tok + count_occ string_dec ts tok) /\
    (forall x, In x (fst st' ++ snd st') -> In x (fst st ++ snd st) \/ In x ts) /\
    (~ In ")" (fst st) -> ~ In ")" (fst st')).
Proof.
  revert st. induction ts as [|token ts IH]; intros [rpn stk] Hstk.
  - exists (rpn, stk). cbn. rewrite app_nil_r.
    repeat split; auto; intros; lia.
  - cbn [snd] in Hstk.
    destruct (convert_step_spec token rpn stk Hstk) as (st1 & E1 & Hspec & Hstk1).
    destruct (step_spec_keeps _ _ _ Hspec) as (Ha & Hb & Hc & Hd).
    destruct (IH st1 Hstk1) as (st' & E' & Hstk' & Ha' & Hb' & Hc' & Hd').
    exists st'. cbn [convert_loop]. rewrite E1. cbn [bind].
    split; [exact E'|]. split; [exact Hstk'|]. cbn [fst snd] in *.
    repeat split.
    + rewrite Ha', Ha, <- app_assoc, <- filter_app. reflexivity.
    + intros tok Hno Hnc. rewrite (Hb' tok Hno Hnc), (Hb tok Hno Hnc).
      cbn [count_occ]. destruct (string_dec token tok); lia.
    + intros x Hx. destruct (Hc' x Hx) as [H|H]; [|right; now right].
      destruct (Hc x H) as [H'|H']; [now left|right; now left].
    + auto.
Qed.

Lemma convert2rpn_keeps (ts : list string) :
  exists rpn,
    convert2rpn ts = Ok rpn /\
    filter is_operand rpn = filter is_operand ts /\
    (forall tok, tok <> "(" -> tok <> ")" ->
       count_occ string_dec rpn tok = count_occ string_dec ts tok) /\
    (forall x, In x rpn -> In x ts) /\
    ~ In ")" rpn.
Proof.
  destruct (convert_loop_keeps ts ([], []) (Forall_nil _))
    as ([rpn stk] & E & Hstk & Ha & Hb & Hc & Hd).
  cbn [fst snd] in *.
  exists (rpn ++ stk). unfold convert2rpn. rewrite E. cbn [bind].
  rewrite drain_app. split; [reflexivity|]. repeat split.
  - rewrite filter_app, Ha.
    assert (Hs : filter is_operand stk = []).
    { clear - Hstk. induction Hstk as [|tok stk Htok _ IH]; [reflexivity|].
      cbn [filter]. unfold is_operand at 1.
      destruct Htok as [->|Htok]; [exact IH|].
      now rewrite (pending_op_operator _ Htok). }
    rewrite Hs. cbn. now rewrite app_nil_r.
  - intros tok Hno Hnc. rewrite (Hb tok Hno Hnc). reflexivity.
  - intros x Hx. destruct (Hc x Hx) as [[]|H]; exact H.
  - intros Hin. apply in_app_iff in Hin as [Hin|Hin].
    + now apply Hd.
    + now apply (stack_ops_not_close stk).
Qed.

End ConverterInvariants.

(** ** What the tree builder keeps *)

Section BuilderMore.

Context {T : Type} (T_eq_dec : forall x y : T, {x = y} + {x <> y}) (cast : Z -> T).

Lemma stoll_literal_cases (tok : string) :
  is_literal tok = true ->
  stoll tok =
  if (literal_value tok <=? LLONG_MAX)%Z then Ok (literal_value tok)
  else Throw (out_of_range "stoll").
Proof.
  intros Hl. destruct (literal_value tok <=? LLONG_MAX)%Z eqn:Hv.
  - now apply stoll_literal.
  - unfold is_literal, literal_value in *.
    destruct tok as [|c rest]; [discriminate|].
    cbn [empty negb all_chars andb] in Hl. apply andb_true_iff in Hl as [Hc _].
    rewrite (stoll_digit_head _ _ Hc). cbv zeta. now rewrite Hv, andb_false_r.
Qed.

Lemma operand_not_binary (op : string) : is_operator op = false -> is_binary op = false.
Proof.
  intros H. unfold is_binary.
  destruct (String.eqb_spec op "|") as [->|_]; [discriminate|].
  destruct (String.eqb_spec op "&") as [->|_]; [discriminate|reflexivity].
Qed.

(** Each iteration changes the size of the node stack by one up for an
    operand, one down for a binary operator and not at all otherwise. *)
Lemma rpn_step_size (op : string) (ns ns1 : list (Node T)) :
  rpn_step cast op ns = Ok ns1 ->
  (List.length ns1 + List.length (filter is_binary [op]) =
   List.length ns + List.length (filter is_operand [op]))%nat.
Proof.
  unfold rpn_step, is_operand. cbn [filter].
  destruct (is_operator op) eqn:Hop; cbn [negb].
  - unfold is_binary.
    destruct (String.eqb op "|"); cbn [orb].
    { destruct ns as [|r [|l rest]]; cbn; intros E; inversion E; subst; cbn; lia. }
    destruct (String.eqb op "&"); cbn [orb].
    { destruct ns as [|r [|l rest]]; cbn; intros E; inversion E; subst; cbn; lia. }
    destruct ns as [|n rest]; cbn; intros E; inversion E; subst; cbn; lia.
  - rewrite (operand_not_binary _ Hop).
    destruct (stoll op); cbn; intros E; inversion E; subst; cbn; lia.
Qed.

Lemma rpn_loop_size (rpn : list string) (ns ns' : list (Node T)) :
  rpn_loop cast rpn ns = Ok ns' ->
  (List.length ns' + List.length (filter is_binary rpn) =
   List.length ns + List.length (filter is_operand rpn))%nat.
Proof.
  revert ns. induction rpn as [|op rpn IH]; intros ns; cbn [rpn_loop].
  - intros E. inversion E. cbn. lia.
  - destruct (rpn_step cast op ns) as [ns1| |] eqn:E1; cbn [bind]; try discriminate.
    intros E. apply IH in E. apply rpn_step_size in E1.
    change (op :: rpn) with ([op] ++ rpn). rewrite !filter_app, !length_app. lia.
Qed.

Lemma rpn2tree_ok (rpn : list string) (root : Node T) :
  rpn2tree cast rpn = Ok root -> rpn_loop cast rpn [] = Ok [root].
Proof.
  unfold rpn2tree. destruct (rpn_loop cast rpn []) as [ns| |]; cbn [bind]; try discriminate.
  destruct ns as [|n [|m ns]]; cbn; try discriminate. now intros [= ->].
Qed.

Lemma stack_leaves_cons (n : Node T) (ns : list (Node T)) :
  stack_leaves (n :: ns) = stack_leaves ns ++ leaves n.
Proof.
  unfold stack_leaves. cbn [rev]. rewrite flat_map_app. cbn. now rewrite app_nil_r.
Qed.

(** The leaves of the stack, bottom to top and left to right, grow by the
    value of each literal and are left alone by the operators. *)
Lemma rpn_step_leaves (op : string) (ns ns1 : list (Node T)) :
  token_ok op ->
  rpn_step cast op ns = Ok ns1 ->
  stack_leaves ns1 =
  stack_leaves ns ++ map (fun tok => cast (literal_value tok)) (filter is_literal [op]).
Proof.
  intros Hok. unfold rpn_step. rewrite (token_ok_operator _ Hok). cbn [filter].
  destruct (is_literal op) eqn:Hl; cbn [negb].
  - rewrite (stoll_literal_cases _ Hl).
    destruct (literal_value op <=? LLONG_MAX)%Z; cbn [bind]; [|discriminate].
    intros [= <-]. now rewrite stack_leaves_cons.
  - cbn [map]. rewrite app_nil_r.
    destruct (String.eqb op "|").
    { destruct ns as [|r [|l rest]]; cbn [bind top pop]; intros E; inversion E; subst.
      rewrite !stack_leaves_cons. cbn [leaves]. now rewrite app_assoc. }
    destruct (String.eqb op "&").
    { destruct ns as [|r [|l rest]]; cbn [bind top pop]; intros E; inversion E; subst.
      rewrite !stack_leaves_cons. cbn [leaves]. now rewrite app_assoc. }
    destruct ns as [|n rest]; cbn [bind top pop]; intros E; inversion E; subst.
    now rewrite !stack_leaves_cons.
Qed.

Lemma rpn_loop_leaves (rpn : list string) (ns ns' : list (Node T)) :
  Forall token_ok rpn ->
  rpn_loop cast rpn ns = Ok ns' ->
  stack_leaves ns' =
  stack_leaves ns ++ map (fun tok => cast (literal_value tok)) (filter is_literal rpn).
Proof.
  intros Hok. revert ns. induction Hok as [|op rpn Hop _ IH]; intros ns; cbn [rpn_loop].
  - intros [= <-]. cbn. now rewrite app_nil_r.
  - destruct (rpn_step cast op ns) as [ns1| |] eqn:E1; cbn [bind]; try discriminate.
    intros E.
    rewrite (IH _ E), (rpn_step_leaves _ _ _ Hop E1), <- app_assoc, <- map_app,
      <- filter_app.
    reflexivity.
Qed.

(** On well-formed tokens the loop of the builder ends in a stack, in
    undefined behaviour, or in the range error of [std::stoll]. *)
Lemma rpn_step_outcome (op : string) (ns : list (Node T)) :
  token_ok op ->
  (exists ns1, rpn_step cast op ns = Ok ns1) \/
  rpn_step cast op ns = Undefined \/
  rpn_step cast op ns = Throw (out_of_range "stoll").
Proof.
  intros Hok. unfold rpn_step. rewrite (token_ok_operator _ Hok).
  destruct (is_literal op) eqn:Hl; cbn [negb].
  - rewrite (stoll_literal_cases _ Hl).
    destruct (literal_value op <=? LLONG_MAX)%Z; cbn [bind]; eauto.
  - destruct (String.eqb op "|"); [destruct ns as [|r [|l rest]]; cbn; eauto|].
    destruct (String.eqb op "&"); [destruct ns as [|r [|l rest]]; cbn; eauto|].
    destruct ns as [|n rest]; cbn; eauto.
Qed.

Lemma rpn_loop_outcome (rpn : list string) (ns : list (Node T)) :
  Forall token_ok rpn ->
  (exists ns', rpn_loop cast rpn ns = Ok ns') \/
  rpn_loop cast rpn ns = Undefined \/
  rpn_loop cast rpn ns = Throw (out_of_range "stoll").
Proof.
  intros Hok. revert ns. induction Hok as [|op rpn Hop _ IH]; intros ns; cbn [rpn_loop].
  - eauto.
  - destruct (rpn_step_outcome op ns Hop) as [[ns1 E]|[E|E]]; rewrite E; cbn [bind]; auto.
Qed.

Lemma rpn2tree_outcome (rpn : list string) :
  Forall token_ok rpn ->
  (exists root, rpn2tree cast rpn = Ok root) \/
  rpn2tree cast rpn = Undefined \/
  rpn2tree cast rpn = Throw (logic_error "Extra label") \/
  rpn2tree cast rpn = Throw (out_of_range "stoll").
Proof.
  intros Hok. unfold rpn2tree.
  destruct (rpn_loop_outcome rpn [] Hok) as [[ns E]|[E|E]]; rewrite E; cbn [bind]; auto.
  destruct ns as [|n [|m ns]]; cbn; eauto.
Qed.

(** Once the tokenizer has succeeded, the constructor is the builder applied
    to a postfix sequence made of tokens of the input. *)
Lemma SyntaxTree_after_tokens (s : string) (ts : list string) :
  parse_logic_expression s = Ok ts ->
  exists rpn,
    convert2rpn ts = Ok rpn /\ SyntaxTree cast s = rpn2tree cast rpn /\
    Forall token_ok rpn.
Proof.
  intros Hts.
  destruct (convert2rpn_keeps ts) as (rpn & E & _ & _ & Hin & _).
  exists rpn. split; [exact E|]. split.
  - unfold SyntaxTree. rewrite Hts. cbn [bind]. now rewrite E.
  - destruct (parse_logic_expression_tokens s ts Hts) as [Hok _].
    rewrite Forall_forall in *. auto.
Qed.

End BuilderMore.

(** ** The evaluator *)

Section CheckMore.

Context {T : Type} (T_eq_dec : forall x y : T, {x = y} + {x <> y}).

Lemma check_label_same (v : T) (L L' : list T) :
  (In v L <-> In v L') ->
  check T_eq_dec (LabelNode v) L = check T_eq_dec (LabelNode v) L'.
Proof.
  intros H.
  destruct (check T_eq_dec (LabelNode v) L) eqn:E; symmetry.
  - apply check_label, H. now apply check_label in E.
  - apply not_true_is_false. intros E'.
    apply check_label, H, (check_label T_eq_dec) in E'. congruence.
Qed.

Lemma check_leaves (t : Node T) (L L' : list T) :
  (forall v, In v (leaves t) -> (In v L <-> In v L')) ->
  check T_eq_dec t L = check T_eq_dec t L'.
Proof.
  induction t as [l IHl r IHr|l IHl r IHr|n IHn|v]; cbn [leaves check]; intros H.
  - rewrite IHl, IHr; [reflexivity| |]; intros v Hv; apply H, in_app_iff; auto.
  - rewrite IHl, IHr; [reflexivity| |]; intros v Hv; apply H, in_app_iff; auto.
  - now rewrite IHn.
  - apply (check_label_same v). apply H. now left.
Qed.

Lemma check_monotone (t : Node T) (L L' : list T) :
  negation_free t = true -> incl L L' ->
  check T_eq_dec t L = true -> check T_eq_dec t L' = true.
Proof.
  intros Hnf Hincl.
  induction t as [l IHl r IHr|l IHl r IHr|n IHn|v]; cbn [negation_free] in Hnf.
  - apply andb_true_iff in Hnf as [Hl Hr]. cbn [check].
    destruct (check T_eq_dec l L) eqn:El.
    + now rewrite IHl.
    + intros E. rewrite (IHr Hr E). now destruct (check T_eq_dec l L').
  - apply andb_true_iff in Hnf as [Hl Hr]. cbn [check].
    destruct (check T_eq_dec l L) eqn:El; cbn [negb]; [|discriminate].
    intros E. now rewrite (IHl Hl eq_refl), (IHr Hr E).
  - discriminate.
  - intros E. apply check_label. apply Hincl. now apply check_label in E.
Qed.

End CheckMore.

(** ** Expressions put together *)

Section Composition.

Context {T : Type} (T_eq_dec : forall x y : T, {x = y} + {x <> y}) (cast : Z -> T).

Lemma spells_strip (level : list string -> Node T -> Prop)
      (s : string) (ts : list string) (t : Node T) :
  Forall token_ok ts -> spells level s ts t -> strip s = concat_tokens ts.
Proof. intros Hok (_ & Hs & _). now apply spaced_strip. Qed.

Lemma literals_fit_cons_op (op : string) (ts : list string) :
  is_literal op = false -> literals_fit (op :: ts) = literals_fit ts.
Proof. intros H. unfold literals_fit. cbn [forallb]. now rewrite H. Qed.

(** What the converter and the builder do with a whole expression. *)
Lemma expr_converts (s : string) (ts : list string) (t : Node T) :
  spells (Grammar.expr cast) s ts t ->
  Forall token_ok ts /\ no_adjacent_literals ts = true /\
  strip s = concat_tokens ts /\
  exists r pend,
    Forall pending_op pend /\
    (forall ns, rpn_loop cast (r ++ pend) ns = Ok (t :: ns)) /\
    (forall rpn stk, expr_base stk ->
       convert_loop ts (rpn, stk) = Ok (rpn ++ r, pend ++ stk)).
Proof.
  intros (He & Hs & Hnn & Hfit).
  destruct (proj1 (grammar_tokens cast) _ _ He) as [Hok Hadj].
  repeat split; try assumption.
  - now apply spaced_strip.
  - destruct (proj1 (grammar_processes cast) _ _ He Hnn Hfit) as (pend & Hp & r & Hr & Hc).
    exists r, pend. auto.
Qed.

(** What they do with an atom: nothing is left on the operator stack. *)
Lemma atom_converts (s : string) (ts : list string) (t : Node T) :
  spells (Grammar.atom cast) s ts t ->
  Forall token_ok ts /\ no_adjacent_literals ts = true /\
  strip s = concat_tokens ts /\
  exists r,
    (forall ns, rpn_loop cast r ns = Ok (t :: ns)) /\
    (forall rpn stk, convert_loop ts (rpn, stk) = Ok (rpn ++ r, stk)).
Proof.
  intros ([Hf Hhd] & Hs & Hnn & Hfit).
  destruct (proj2 (proj2 (grammar_tokens cast)) _ _ Hf) as [Hok Hadj].
  repeat split; try assumption.
  - now apply spaced_strip.
  - assert (Hpn : pending_not ts = []).
    { destruct ts as [|x ts]; [reflexivity|]. cbn in Hhd |- *.
      destruct (String.eqb_spec x "!"); [contradiction|reflexivity]. }
    destruct (proj2 (proj2 (grammar_processes cast)) _ _ Hf Hnn Hfit) as (r & Hr & Hc).
    rewrite Hpn in Hr, Hc. exists r. split.
    + intros ns. specialize (Hr ns). now rewrite app_nil_r in Hr.
    + intros rpn stk. apply (Hc rpn stk). now right.
Qed.

(** A parenthesised expression is an atom with the same tree. *)
Lemma paren_spells (s : string) (ts : list string) (t : Node T) :
  spells (Grammar.expr cast) s ts t ->
  spells (Grammar.atom cast) ("(" ++ s ++ ")") ("(" :: ts ++ [")"]) t.
Proof.
  intros (He & Hs & Hnn & Hfit). repeat split.
  - now apply Grammar.factor_paren.
  - discriminate.
  - apply (spaced_cons "" "(" (ts ++ [")"]) (s ++ ")") eq_refl).
    clear - Hs. induction Hs as [ws Hws|ws tok ts s Hws Hs IH].
    + cbn [app].
      replace (ws ++ ")")%string with (ws ++ ")" ++ "")%string by reflexivity.
      apply spaced_cons; [assumption|]. now apply spaced_nil.
    + cbn [app]. rewrite !append_assoc. now apply spaced_cons.
  - rewrite no_double_not_cons by discriminate.
    rewrite no_double_not_app by discriminate. now rewrite Hnn.
  - rewrite literals_fit_cons_op by reflexivity.
    rewrite literals_fit_app, Hfit. reflexivity.
Qed.

Lemma SyntaxTree_atom (s : string) (ts : list string) (t : Node T) :
  spells (Grammar.atom cast) s ts t -> SyntaxTree cast s = Ok t.
Proof.
  intros ([Hf Hhd] & Hs & Hnn & Hfit).
  apply (SyntaxTree_expr cast s ts t); try assumption.
  - now apply Grammar.expr_term, Grammar.term_factor.
  - apply spaced_strip; [|assumption].
    apply (proj2 (proj2 (grammar_tokens cast)) _ _ Hf).
Qed.

Lemma SyntaxTree_spells (s : string) (ts : list string) (t : Node T) :
  spells (Grammar.expr cast) s ts t -> SyntaxTree cast s = Ok t.
Proof.
  intros (He & Hs & Hnn & Hfit).
  apply (SyntaxTree_expr cast s ts t); try assumption.
  apply spaced_strip; [|assumption]. apply (proj1 (grammar_tokens cast) _ _ He).
Qed.

Lemma SyntaxTree_tokens (s : string) (ts rpn : list string) :
  Forall token_ok ts -> no_adjacent_literals ts = true ->
  strip s = concat_tokens ts ->
  convert2rpn ts = Ok rpn ->
  SyntaxTree cast s = rpn2tree cast rpn.
Proof.
  intros Hok Hadj Hs Hc. unfold SyntaxTree.
  rewrite (parse_logic_expression_spaced ts s Hok Hadj Hs). cbn [bind].
  now rewrite Hc.
Qed.

End Composition.

(** ** Counting and composing *)

Section Counting.

Context {T : Type} (T_eq_dec : forall x y : T, {x = y} + {x <> y}) (cast : Z -> T).

Lemma binary_count (l : list string) :
  List.length (filter is_binary l) =
  (count_occ string_dec l "|" + count_occ string_dec l "&")%nat.
Proof.
  induction l as [|tok l IH]; [reflexivity|].
  cbn [filter count_occ]. unfold is_binary at 1.
  destruct (string_dec tok "|") as [->|H1]; [cbn; lia|].
  destruct (string_dec tok "&") as [->|H2]; [cbn; lia|].
  apply String.eqb_neq in H1, H2. rewrite H1, H2. cbn. lia.
Qed.

Lemma filter_operand_literal (ts : list string) :
  Forall token_ok ts -> filter is_operand ts = filter is_literal ts.
Proof.
  induction 1 as [|tok ts Htok _ IH]; [reflexivity|].
  cbn [filter]. unfold is_operand at 1.
  rewrite (token_ok_operator _ Htok), negb_involutive, IH. reflexivity.
Qed.

(** A successful construction, stage by stage. *)
Lemma SyntaxTree_ok_stages (s : string) (root : Node T) :
  SyntaxTree cast s = Ok root ->
  exists ts rpn,
    parse_logic_expression s = Ok ts /\ Forall token_ok ts /\
    convert2rpn ts = Ok rpn /\ Forall token_ok rpn /\
    rpn_loop cast rpn [] = Ok [root].
Proof.
  intros H. unfold SyntaxTree in H.
  destruct (parse_logic_expression s) as [ts| |] eqn:Hts; cbn [bind] in H; try discriminate.
  destruct (SyntaxTree_after_tokens cast s ts Hts) as (rpn & Hc & _ & Hok).
  rewrite Hc in H. cbn [bind] in H.
  exists ts, rpn. repeat split; try assumption.
  - apply (parse_logic_expression_tokens s ts Hts).
  - now apply rpn2tree_ok.
Qed.

Lemma SyntaxTree_binary_atoms (A B : string) (ta tb : list string) (a b : Node T) :
  spells (Grammar.atom cast) A ta a -> spells (Grammar.atom cast) B tb b ->
  SyntaxTree cast (A ++ "&" ++ B) = Ok (AndNode a b) /\
  SyntaxTree cast (A ++ "|" ++ B) = Ok (OrNode a b).
Proof.
  intros HA HB.
  destruct (atom_converts cast _ _ _ HA) as (OkA & _ & SA & _).
  destruct (atom_converts cast _ _ _ HB) as (OkB & _ & SB & _).
  destruct HA as ([FA _] & _ & HnA & HfA), HB as ([FB _] & _ & HnB & HfB).
  split.
  - apply (SyntaxTree_expr cast _ (ta ++ "&" :: tb)).
    + apply Grammar.expr_term, Grammar.term_and; [apply Grammar.term_factor|]; assumption.
    + rewrite no_double_not_app by discriminate. now rewrite HnA, HnB.
    + rewrite literals_fit_app, literals_fit_cons_op by reflexivity. now rewrite HfA, HfB.
    + rewrite concat_tokens_app, !strip_app, SA, SB. reflexivity.
  - apply (SyntaxTree_expr cast _ (ta ++ "|" :: tb)).
    + apply Grammar.expr_or; [apply Grammar.expr_term|]; apply Grammar.term_factor;
        assumption.
    + rewrite no_double_not_app by discriminate. now rewrite HnA, HnB.
    + rewrite literals_fit_app, literals_fit_cons_op by reflexivity. now rewrite HfA, HfB.
    + rewrite concat_tokens_app, !strip_app, SA, SB. reflexivity.
Qed.

Lemma SyntaxTree_not_atom (A : string) (ta : list string) (a : Node T) :
  spells (Grammar.atom cast) A ta a ->
  SyntaxTree cast ("!" ++ A) = Ok (NotNode a).
Proof.
  intros HA.
  destruct (atom_converts cast _ _ _ HA) as (OkA & _ & SA & _).
  destruct HA as ([FA NA] & _ & HnA & HfA).
  apply (SyntaxTree_expr cast _ ("!" :: ta)).
  - now apply Grammar.expr_term, Grammar.term_factor, Grammar.factor_not.
  - now rewrite no_double_not_after_not.
  - now rewrite literals_fit_cons_op.
  - rewrite strip_app, SA. reflexivity.
Qed.

End Counting.

(** ** Further properties, stated *)

Section Extras.

Context {T : Type} (T_eq_dec : forall x y : T, {x = y} + {x <> y}) (cast : Z -> T).

(** X1. The tokenizer throws its logic error exactly on the inputs that
    contain a character other than a space, a tab, an operator or
    parenthesis character or a digit; and the constructor ends with that
    error on exactly the same inputs. *)
Theorem bad_character_is_the_only_token_error (s : string) :
  (parse_logic_expression s = Throw (logic_error "Token is incorrect") <->
   all_chars valid_char s = false) /\
  (SyntaxTree cast s = Throw (logic_error "Token is incorrect") <->
   all_chars valid_char s = false).
Proof.
  split; split.
  - intros H. destruct (all_chars valid_char s) eqn:E; [|reflexivity].
    destruct (parse_logic_expression_valid s E) as (ts & Hts & _). congruence.
  - apply parse_loop_invalid.
  - intros H. destruct (all_chars valid_char s) eqn:E; [|reflexivity].
    destruct (parse_logic_expression_valid s E) as (ts & Hts & _).
    destruct (SyntaxTree_after_tokens cast s ts Hts) as (rpn & _ & Hs & Hok).
    rewrite Hs in H.
    destruct (rpn2tree_outcome cast rpn Hok) as [[root E']|[E'|[E'|E']]];
      rewrite E' in H; discriminate.
  - intros H. unfold SyntaxTree, parse_logic_expression.
    now rewrite (parse_loop_invalid s [] "" H).
Qed.

(** X2. Spaces and tabs are insignificant everywhere, also inside a run of
    digits: two inputs that are equal once their spaces and tabs are removed
    give the same tokens and the same construction. *)
Theorem blanks_are_insignificant (s1 s2 : string) (Hsame : strip s1 = strip s2) :
  parse_logic_expression s1 = parse_logic_expression s2 /\
  SyntaxTree cast s1 = SyntaxTree cast s2.
Proof.
  assert (E : parse_logic_expression s1 = parse_logic_expression s2).
  { unfold parse_logic_expression.
    now rewrite (parse_loop_strip s1), (parse_loop_strip s2), Hsame. }
  split; [exact E|]. unfold SyntaxTree. now rewrite E.
Qed.

(** X3. Round trip of the tokenizer: a sequence of well-formed tokens in
    which no two literals are adjacent is recovered from its
    concatenation. *)
Theorem tokenizer_round_trip (ts : list string)
    (Hok : Forall token_ok ts) (Hadj : no_adjacent_literals ts = true) :
  parse_logic_expression (concat_tokens ts) = Ok ts.
Proof.
  unfold parse_logic_expression.
  now rewrite (parse_loop_concat ts Hok Hadj "" eq_refl (or_introl eq_refl)).
Qed.

(** X4. The converter succeeds on every token sequence: the precedence
    lookups never miss their key. Its output never contains [")"] and
    holds tokens of the input only. *)
Theorem convert2rpn_never_throws (ts : list string) :
  exists rpn,
    convert2rpn ts = Ok rpn /\ ~ In ")" rpn /\ (forall x, In x rpn -> In x ts).
Proof.
  destruct (convert2rpn_keeps ts) as (rpn & E & _ & _ & Hin & Hnc).
  exists rpn. auto.
Qed.

(** X5. The converter keeps the operands in their order: the tokens of the
    output that are not operators are those of the input, in sequence. *)
Theorem convert2rpn_keeps_operand_order (ts : list string) :
  exists rpn,
    convert2rpn ts = Ok rpn /\ filter is_operand rpn = filter is_operand ts.
Proof.
  destruct (convert2rpn_keeps ts) as (rpn & E & Hf & _).
  exists rpn. auto.
Qed.

(** X6. The converter neither loses nor duplicates a token other than a
    parenthesis: each one occurs in the output as often as in the input. *)
Theorem convert2rpn_keeps_counts (ts : list string) :
  exists rpn,
    convert2rpn ts = Ok rpn /\
    forall tok, tok <> "(" -> tok <> ")" ->
      count_occ string_dec rpn tok = count_occ string_dec ts tok.
Proof.
  destruct (convert2rpn_keeps ts) as (rpn & E & _ & Hc & _).
  exists rpn. auto.
Qed.

(** X7. An input that is constructed successfully has exactly one more
    literal than binary operators. *)
Theorem constructed_input_is_balanced (s : string) (root : Node T)
    (Hroot : SyntaxTree cast s = Ok root) :
  exists ts,
    parse_logic_expression s = Ok ts /\
    List.length (filter is_literal ts) = S (List.length (filter is_binary ts)).
Proof.
  destruct (SyntaxTree_ok_stages cast s root Hroot) as (ts & rpn & Hts & Hok & Hc & Hokr & Hl).
  exists ts. split; [exact Hts|].
  destruct (convert2rpn_keeps ts) as (rpn' & Hc' & Hf & Hcount & _).
  rewrite Hc in Hc'. injection Hc' as <-.
  apply rpn_loop_size in Hl. cbn [List.length] in Hl.
  rewrite Hf, (filter_operand_literal ts Hok) in Hl.
  rewrite !binary_count in *.
  rewrite !Hcount in Hl by discriminate. lia.
Qed.

(** X8. The leaves of a constructed tree, from left to right, are the values
    of the literals of the input, in the order of the input. *)
Theorem leaves_follow_the_input (s : string) (root : Node T)
    (Hroot : SyntaxTree cast s = Ok root) :
  exists ts,
    parse_logic_expression s = Ok ts /\
    leaves root = map (fun tok => cast (literal_value tok)) (filter is_literal ts).
Proof.
  destruct (SyntaxTree_ok_stages cast s root Hroot) as (ts & rpn & Hts & Hok & Hc & Hokr & Hl).
  exists ts. split; [exact Hts|].
  destruct (convert2rpn_keeps ts) as (rpn' & Hc' & Hf & _).
  rewrite Hc in Hc'. injection Hc' as <-.
  apply (rpn_loop_leaves cast rpn [] [root] Hokr) in Hl.
  rewrite <- (filter_operand_literal rpn Hokr), Hf, (filter_operand_literal ts Hok) in Hl.
  unfold stack_leaves in Hl. cbn [rev app flat_map] in Hl.
  now rewrite app_nil_r in Hl.
Qed.

(** X9. Whatever the input string, the constructor ends in one of five ways:
    a tree, undefined behaviour, the logic error of the tokenizer, the logic
    error of the size check, or the range error of [std::stoll]. It never
    ends with [std::invalid_argument] nor with the error of a failed
    precedence lookup. *)
Theorem constructor_outcomes (s : string) :
  constructor_outcome (SyntaxTree cast s).
Proof.
  unfold constructor_outcome.
  destruct (all_chars valid_char s) eqn:E.
  - destruct (parse_logic_expression_valid s E) as (ts & Hts & _).
    destruct (SyntaxTree_after_tokens cast s ts Hts) as (rpn & _ & Hs & Hok).
    rewrite Hs.
    destruct (rpn2tree_outcome cast rpn Hok) as [[root E']|[E'|[E'|E']]];
      rewrite E'; eauto 6.
  - unfold SyntaxTree, parse_logic_expression.
    rewrite (parse_loop_invalid s [] "" E). cbn [bind]. auto.
Qed.

(** X10. [check] looks at a label collection only through the membership of
    the labels that occur in the tree: two collections that agree on those
    labels get the same answer. *)
Theorem check_depends_on_tree_labels (t : Node T) (L L' : list T)
    (Hagree : forall v, In v (leaves t) -> (In v L <-> In v L')) :
  check T_eq_dec t L = check T_eq_dec t L'.
Proof. now apply check_leaves. Qed.

(** X11. On a tree without Not nodes, [check] is monotone: a collection that
    satisfies the tree still satisfies it after labels are added. *)
Theorem check_is_monotone_without_not (t : Node T) (L L' : list T)
    (Hfree : negation_free t = true) (Hmore : incl L L')
    (Hsat : check T_eq_dec t L = true) :
  check T_eq_dec t L' = true.
Proof. exact (check_monotone T_eq_dec t L L' Hfree Hmore Hsat). Qed.

(** X12. The short-circuit evaluation of [check] computes the Boolean
    connectives: And is conjunction and Or is disjunction of the operands'
    answers, so the order of the operands does not change the answer, and
    De Morgan's law and double negation hold on trees. *)
Theorem check_is_boolean (l r : Node T) (L : list T) :
  check T_eq_dec (AndNode l r) L = check T_eq_dec l L && check T_eq_dec r L /\
  check T_eq_dec (OrNode l r) L = check T_eq_dec l L || check T_eq_dec r L /\
  check T_eq_dec (AndNode l r) L = check T_eq_dec (AndNode r l) L /\
  check T_eq_dec (OrNode l r) L = check T_eq_dec (OrNode r l) L /\
  check T_eq_dec (NotNode (AndNode l r)) L =
    check T_eq_dec (OrNode (NotNode l) (NotNode r)) L /\
  check T_eq_dec (NotNode (OrNode l r)) L =
    check T_eq_dec (AndNode (NotNode l) (NotNode r)) L /\
  check T_eq_dec (NotNode (NotNode l)) L = check T_eq_dec l L.
Proof.
  cbn [check].
  destruct (check T_eq_dec l L), (check T_eq_dec r L); repeat split.
Qed.

(** X13. A single literal is constructed into its Label leaf when its value
    is at most [LLONG_MAX], and ends with the range error of [std::stoll]
    otherwise. *)
Theorem literal_construction (tok : string) (Hlit : is_literal tok = true) :
  SyntaxTree cast tok =
  if (literal_value tok <=? LLONG_MAX)%Z
  then Ok (LabelNode (cast (literal_value tok)))
  else Throw (out_of_range "stoll").
Proof.
  assert (Hok : Forall token_ok [tok]) by (constructor; [now right|constructor]).
  rewrite (SyntaxTree_tokens cast tok [tok] [tok] Hok eq_refl).
  - unfold rpn2tree. cbn [rpn_loop]. unfold rpn_step.
    rewrite (literal_not_operator _ Hlit), (stoll_literal_cases _ Hlit). cbn [negb].
    now destruct (literal_value tok <=? LLONG_MAX)%Z.
  - cbn [concat_tokens]. rewrite append_nil_r. apply token_ok_strip. now right.
  - unfold convert2rpn. cbn [convert_loop].
    now rewrite (convert_step_literal _ _ _ Hlit).
Qed.

(** X14. Atoms compose: when [A] and [B] spell a literal or a parenthesised
    expression with trees [a] and [b], ["A&B"] is constructed into
    [And a b], ["A|B"] into [Or a b] and ["!A"] into [Not a]. *)
Theorem atoms_compose (A B : string) (ta tb : list string) (a b : Node T)
    (HA : spells (Grammar.atom cast) A ta a)
    (HB : spells (Grammar.atom cast) B tb b) :
  SyntaxTree cast (A ++ "&" ++ B) = Ok (AndNode a b) /\
  SyntaxTree cast (A ++ "|" ++ B) = Ok (OrNode a b) /\
  SyntaxTree cast ("!" ++ A) = Ok (NotNode a).
Proof.
  destruct (SyntaxTree_binary_atoms cast A B ta tb a b HA HB) as [H1 H2].
  split; [exact H1|]. split; [exact H2|].
  exact (SyntaxTree_not_atom cast A ta a HA).
Qed.

(** X15. Parentheses around a whole expression change nothing: ["(E)"] is
    constructed into the tree of [E]. *)
Theorem parentheses_are_transparent (s : string) (ts : list string) (t : Node T)
    (Hs : spells (Grammar.expr cast) s ts t) :
  SyntaxTree cast ("(" ++ s ++ ")") = Ok t /\
  SyntaxTree cast ("(" ++ s ++ ")") = SyntaxTree cast s.
Proof.
  assert (E : SyntaxTree cast ("(" ++ s ++ ")") = Ok t)
    by exact (SyntaxTree_atom cast _ _ _ (paren_spells cast s ts t Hs)).
  split; [exact E|]. now rewrite E, (SyntaxTree_spells cast s ts t Hs).
Qed.

(** X16. A ["("] that is never closed negates what follows it: for every
    expression [E] of the grammar, ["(E"] is constructed into the Not node
    over the tree of [E]. *)
Theorem unclosed_paren_negates (s : string) (ts : list string) (t : Node T)
    (Hs : spells (Grammar.expr cast) s ts t) :
  SyntaxTree cast ("(" ++ s) = Ok (NotNode t).
Proof.
  destruct (expr_converts cast s ts t Hs) as (Hok & Hadj & Hstrip & r & pend & Hp & Hr & Hc).
  rewrite (SyntaxTree_tokens cast ("(" ++ s) ("(" :: ts) (r ++ pend ++ ["("])).
  - unfold rpn2tree. rewrite app_assoc, rpn_loop_app, Hr. reflexivity.
  - constructor; [now left|assumption].
  - exact (eq_trans (no_adjacent_literals_app [] ts "(" eq_refl) Hadj).
  - cbn [concat_tokens]. rewrite strip_app, Hstrip. reflexivity.
  - unfold convert2rpn. cbn [convert_loop]. rewrite convert_step_open. cbn [bind].
    rewrite (Hc [] ["("] eq_refl). cbn [bind]. now rewrite drain_app.
Qed.

(** X17. A [")"] that closes nothing, after a whole expression, is ignored:
    for every expression [E] of the grammar, ["E)"] is constructed into the
    tree of [E]. *)
Theorem unopened_paren_is_ignored (s : string) (ts : list string) (t : Node T)
    (Hs : spells (Grammar.expr cast) s ts t) :
  SyntaxTree cast (s ++ ")") = Ok t.
Proof.
  destruct (expr_converts cast s ts t Hs) as (Hok & Hadj & Hstrip & r & pend & Hp & Hr & Hc).
  rewrite (SyntaxTree_tokens cast (s ++ ")") (ts ++ [")"]) (r ++ pend)).
  - unfold rpn2tree. now rewrite Hr.
  - apply Forall_app. split; [assumption|]. constructor; [now left|constructor].
  - now rewrite (no_adjacent_literals_app ts [] ")" eq_refl), Hadj.
  - rewrite strip_app, concat_tokens_app, Hstrip. reflexivity.
  - unfold convert2rpn. rewrite convert_loop_app, (Hc [] [] I). cbn [bind convert_loop].
    rewrite app_nil_r. cbn [app].
    rewrite convert_step_close_unmatched by (now apply pending_op_not_paren).
    cbn [bind]. now rewrite drain_app, app_nil_r.
Qed.

(** X18. Two atoms written one after the other without an operator between
    them (and not two literals, which would be one token) are rejected by
    the size check of the tree builder. *)
Theorem juxtaposed_atoms_are_rejected
    (A B : string) (ta tb : list string) (a b : Node T)
    (HA : spells (Grammar.atom cast) A ta a)
    (HB : spells (Grammar.atom cast) B tb b)
    (Hadj : no_adjacent_literals (ta ++ tb) = true) :
  SyntaxTree cast (A ++ B) = Throw (logic_error "Extra label").
Proof.
  destruct (atom_converts cast _ _ _ HA) as (OkA & _ & SA & ra & Hra & Hca).
  destruct (atom_converts cast _ _ _ HB) as (OkB & _ & SB & rb & Hrb & Hcb).
  rewrite (SyntaxTree_tokens cast (A ++ B) (ta ++ tb) (ra ++ rb)).
  - unfold rpn2tree. rewrite rpn_loop_app, Hra. cbn [bind]. now rewrite Hrb.
  - apply Forall_app. auto.
  - exact Hadj.
  - now rewrite strip_app, concat_tokens_app, SA, SB.
  - unfold convert2rpn. rewrite convert_loop_app, Hca. cbn [bind].
    rewrite Hcb. cbn [bind]. now rewrite drain_app, app_nil_r.
Qed.

End Extras.

(** ** Concrete instances of the further properties *)

Section ExtraInstances.

Lemma example_expr_spells :
  spells (Grammar.expr cast_int64) "1 | 2&3" ["1"; "|"; "2"; "&"; "3"]
    (OrNode (LabelNode 1%Z) (AndNode (LabelNode 2%Z) (LabelNode 3%Z))).
Proof.
  split; [|split; [|split; reflexivity]].
  - apply (Grammar.expr_or cast_int64 ["1"] ["2"; "&"; "3"]).
    + apply Grammar.expr_term, Grammar.term_factor,
        (Grammar.factor_literal cast_int64 "1"). reflexivity.
    + apply (Grammar.term_and cast_int64 ["2"] ["3"]).
      * apply Grammar.term_factor, (Grammar.factor_literal cast_int64 "2"). reflexivity.
      * apply (Grammar.factor_literal cast_int64 "3"). reflexivity.
  - apply (spaced_cons "" "1" _ " | 2&3"); [reflexivity|].
    apply (spaced_cons " " "|" _ " 2&3"); [reflexivity|].
    apply (spaced_cons " " "2" _ "&3"); [reflexivity|].
    apply (spaced_cons "" "&" _ "3"); [reflexivity|].
    apply (spaced_cons "" "3" _ ""); [reflexivity|].
    apply spaced_nil. reflexivity.
Qed.

Lemma example_paren_spells :
  spells (Grammar.atom cast_int64) "(1|2)" ["("; "1"; "|"; "2"; ")"]
    (OrNode (LabelNode 1%Z) (LabelNode 2%Z)).
Proof.
  split; [split; [|discriminate]|split; [|split; reflexivity]].
  - apply (Grammar.factor_paren cast_int64 ["1"; "|"; "2"]).
    apply (Grammar.expr_or cast_int64 ["1"] ["2"]).
    + apply Grammar.expr_term, Grammar.term_factor,
        (Grammar.factor_literal cast_int64 "1"). reflexivity.
    + apply Grammar.term_factor, (Grammar.factor_literal cast_int64 "2"). reflexivity.
  - apply (spaced_cons "" "(" _ "1|2)"); [reflexivity|].
    apply (spaced_cons "" "1" _ "|2)"); [reflexivity|].
    apply (spaced_cons "" "|" _ "2)"); [reflexivity|].
    apply (spaced_cons "" "2" _ ")"); [reflexivity|].
    apply (spaced_cons "" ")" _ ""); [reflexivity|].
    apply spaced_nil. reflexivity.
Qed.

Lemma example_literal_spells :
  spells (Grammar.atom cast_int64) " 7" ["7"] (LabelNode 7%Z).
Proof.
  split; [split; [|discriminate]|split; [|split; reflexivity]].
  - apply (Grammar.factor_literal cast_int64 "7"). reflexivity.
  - apply (spaced_cons " " "7" _ ""); [reflexivity|].
    apply spaced_nil. reflexivity.
Qed.

(** X2 at ["1 2 &3"] and ["12&3"]. *)
Lemma blanks_are_insignificant_example :
  strip "1 2 &3" = strip "12&3" /\
  parse_logic_expression "1 2 &3" = parse_logic_expression "12&3" /\
  SyntaxTree cast_int64 "1 2 &3" = SyntaxTree cast_int64 "12&3".
Proof.
  split; [reflexivity|].
  exact (blanks_are_insignificant cast_int64 "1 2 &3" "12&3" eq_refl).
Defined.

(** X3 at the tokens [12 & ( 3]. *)
Lemma tokenizer_round_trip_example :
  Forall token_ok ["12"; "&"; "("; "3"] /\
  no_adjacent_literals ["12"; "&"; "("; "3"] = true /\
  parse_logic_expression (concat_tokens ["12"; "&"; "("; "3"]) =
    Ok ["12"; "&"; "("; "3"].
Proof.
  assert (Hok : Forall token_ok ["12"; "&"; "("; "3"]).
  { apply Forall_cons; [right; reflexivity|].
    apply Forall_cons; [left; reflexivity|].
    apply Forall_cons; [left; reflexivity|].
    apply Forall_cons; [right; reflexivity|]. apply Forall_nil. }
  split; [exact Hok|]. split; [reflexivity|].
  exact (tokenizer_round_trip ["12"; "&"; "("; "3"] Hok eq_refl).
Defined.

(** X7 at ["1|2&3"]. *)
Lemma constructed_input_is_balanced_example :
  SyntaxTree cast_int64 "1|2&3" =
    Ok (OrNode (LabelNode 1%Z) (AndNode (LabelNode 2%Z) (LabelNode 3%Z))) /\
  exists ts,
    parse_logic_expression "1|2&3" = Ok ts /\
    List.length (filter is_literal ts) = S (List.length (filter is_binary ts)).
Proof.
  split; [reflexivity|].
  exact (constructed_input_is_balanced cast_int64 "1|2&3" _ eq_refl).
Defined.

(** X8 at ["3&(1|!2)"]. *)
Lemma leaves_follow_the_input_example :
  SyntaxTree cast_int64 "3&(1|!2)" =
    Ok (AndNode (LabelNode 3%Z) (OrNode (LabelNode 1%Z) (NotNode (LabelNode 2%Z)))) /\
  exists ts,
    parse_logic_expression "3&(1|!2)" = Ok ts /\
    leaves (AndNode (LabelNode 3%Z) (OrNode (LabelNode 1%Z) (NotNode (LabelNode 2%Z)))) =
    map (fun tok => cast_int64 (literal_value tok)) (filter is_literal ts).
Proof.
  split; [reflexivity|].
  exact (leaves_follow_the_input cast_int64 "3&(1|!2)" _ eq_refl).
Defined.

(** X10 on the tree [1 & !2] with the collections [[1; 5]] and
    [[1; 1; 9]]. *)
Lemma check_depends_on_tree_labels_example :
  let t := AndNode (LabelNode 1%Z) (NotNode (LabelNode 2%Z)) in
  (forall v, In v (leaves t) -> (In v [1%Z; 5%Z] <-> In v [1%Z; 1%Z; 9%Z])) /\
  check Z.eq_dec t [1%Z; 5%Z] = check Z.eq_dec t [1%Z; 1%Z; 9%Z].
Proof.
  intros t.
  assert (H : forall v, In v (leaves t) -> (In v [1%Z; 5%Z] <-> In v [1%Z; 1%Z; 9%Z])).
  { intros v Hv. simpl in *. lia. }
  split; [exact H|].
  exact (check_depends_on_tree_labels Z.eq_dec t _ _ H).
Defined.

(** X11 on the tree [1 | 2&3] with [[2; 3]] inside [[9; 3; 2]]. *)
Lemma check_is_monotone_without_not_example :
  let t := OrNode (LabelNode 1%Z) (AndNode (LabelNode 2%Z) (LabelNode 3%Z)) in
  (negation_free t = true /\ incl [2%Z; 3%Z] [9%Z; 3%Z; 2%Z] /\
   check Z.eq_dec t [2%Z; 3%Z] = true) /\
  check Z.eq_dec t [9%Z; 3%Z; 2%Z] = true.
Proof.
  intros t.
  assert (Hincl : incl [2%Z; 3%Z] [9%Z; 3%Z; 2%Z]).
  { intros x Hx. simpl in *. lia. }
  split; [split; [reflexivity|split; [exact Hincl|reflexivity]]|].
  exact (check_is_monotone_without_not Z.eq_dec t _ _ eq_refl Hincl eq_refl).
Defined.

(** X13 at the literal ["0042"]. *)
Lemma literal_construction_example :
  is_literal "0042" = true /\
  SyntaxTree cast_int64 "0042" = Ok (LabelNode 42%Z).
Proof.
  split; [reflexivity|].
  exact (literal_construction cast_int64 "0042" eq_refl).
Defined.

(** X14 at [A = "(1|2)"] and [B = " 7"]. *)
Lemma atoms_compose_example :
  (spells (Grammar.atom cast_int64) "(1|2)" ["("; "1"; "|"; "2"; ")"]
     (OrNode (LabelNode 1%Z) (LabelNode 2%Z)) /\
   spells (Grammar.atom cast_int64) " 7" ["7"] (LabelNode 7%Z)) /\
  SyntaxTree cast_int64 ("(1|2)" ++ "&" ++ " 7") =
    Ok (AndNode (OrNode (LabelNode 1%Z) (LabelNode 2%Z)) (LabelNode 7%Z)) /\
  SyntaxTree cast_int64 ("(1|2)" ++ "|" ++ " 7") =
    Ok (OrNode (OrNode (LabelNode 1%Z) (LabelNode 2%Z)) (LabelNode 7%Z)) /\
  SyntaxTree cast_int64 ("!" ++ "(1|2)") =
    Ok (NotNode (OrNode (LabelNode 1%Z) (LabelNode 2%Z))).
Proof.
  split; [split; [exact example_paren_spells|exact example_literal_spells]|].
  exact (atoms_compose cast_int64 _ _ _ _ _ _ example_paren_spells example_literal_spells).
Defined.

(** X15 at ["1 | 2&3"]. *)
Lemma parentheses_are_transparent_example :
  let t := OrNode (LabelNode 1%Z) (AndNode (LabelNode 2%Z) (LabelNode 3%Z)) in
  spells (Grammar.expr cast_int64) "1 | 2&3" ["1"; "|"; "2"; "&"; "3"] t /\
  SyntaxTree cast_int64 ("(" ++ "1 | 2&3" ++ ")") = Ok t /\
  SyntaxTree cast_int64 ("(" ++ "1 | 2&3" ++ ")") = SyntaxTree cast_int64 "1 | 2&3".
Proof.
  intros t. split; [exact example_expr_spells|].
  exact (parentheses_are_transparent cast_int64 _ _ _ example_expr_spells).
Defined.

(** X16 at ["1 | 2&3"]. *)
Lemma unclosed_paren_negates_example :
  let t := OrNode (LabelNode 1%Z) (AndNode (LabelNode 2%Z) (LabelNode 3%Z)) in
  spells (Grammar.expr cast_int64) "1 | 2&3" ["1"; "|"; "2"; "&"; "3"] t /\
  SyntaxTree cast_int64 ("(" ++ "1 | 2&3") = Ok (NotNode t).
Proof.
  intros t. split; [exact example_expr_spells|].
  exact (unclosed_paren_negates cast_int64 _ _ _ example_expr_spells).
Defined.

(** X17 at ["1 | 2&3"]. *)
Lemma unopened_paren_is_ignored_example :
  let t := OrNode (LabelNode 1%Z) (AndNode (LabelNode 2%Z) (LabelNode 3%Z)) in
  spells (Grammar.expr cast_int64) "1 | 2&3" ["1"; "|"; "2"; "&"; "3"] t /\
  SyntaxTree cast_int64 ("1 | 2&3" ++ ")") = Ok t.
Proof.
  intros t. split; [exact example_expr_spells|].
  exact (unopened_paren_is_ignored cast_int64 _ _ _ example_expr_spells).
Defined.

(** X18 at [A = " 7"] and [B = "(1|2)"]. *)
Lemma juxtaposed_atoms_are_rejected_example :
  (spells (Grammar.atom cast_int64) " 7" ["7"] (LabelNode 7%Z) /\
   spells (Grammar.atom cast_int64) "(1|2)" ["("; "1"; "|"; "2"; ")"]
     (OrNode (LabelNode 1%Z) (LabelNode 2%Z)) /\
   no_adjacent_literals (["7"] ++ ["("; "1"; "|"; "2"; ")"]) = true) /\
  SyntaxTree cast_int64 (" 7" ++ "(1|2)") = Throw (logic_error "Extra label").
Proof.
  split; [split; [exact example_literal_spells|split; [exact example_paren_spells|reflexivity]]|].
  exact (juxtaposed_atoms_are_rejected cast_int64 _ _ _ _ _ _
           example_literal_spells example_paren_spells eq_refl).
Defined.

End ExtraInstances.

(** ** Precedence and associativity on atoms *)

Section Precedence.

Context {T : Type} (T_eq_dec : forall x y : T, {x = y} + {x <> y}) (cast : Z -> T).

Lemma pending_op_dec (op : string) : {pending_op op} + {~ pending_op op}.
Proof.
  unfold pending_op.
  destruct (string_dec op "|"); [left; auto|].
  destruct (string_dec op "&"); [left; auto|].
  destruct (string_dec op "!"); [left; auto|].
  right. tauto.
Defined.

Lemma find_precedence_none (op : string) :
  ~ pending_op op -> find precedence op = None.
Proof.
  unfold pending_op, precedence. cbn [find]. intros H.
  destruct (String.eqb_spec "|" op) as [<-|_]; [tauto|].
  destruct (String.eqb_spec "&" op) as [<-|_]; [tauto|].
  destruct (String.eqb_spec "!" op) as [<-|_]; [tauto|reflexivity].
Qed.

Lemma find_precedence_some (op : string) :
  pending_op op -> exists p, find precedence op = Some p.
Proof. intros [->|[->| ->]]; eexists; reflexivity. Qed.

(** X19. [higher_precedence] throws the error of [unordered_map::at] exactly
    when one of its arguments is not ["|"], ["&"] or ["!"]; otherwise it
    answers false for the three pairs ("|","&"), ("|","!") and ("&","!") and
    true for the six others, ties included. *)
Theorem higher_precedence_missing_key (op1 op2 : string) :
  (higher_precedence op1 op2 = Throw (out_of_range "unordered_map::at") <->
   ~ (pending_op op1 /\ pending_op op2)) /\
  (higher_precedence op1 op2 = Ok false <->
   (op1 = "|" /\ (op2 = "&" \/ op2 = "!")) \/ (op1 = "&" /\ op2 = "!")) /\
  (higher_precedence op1 op2 = Ok true <->
   (op1 = "!" /\ pending_op op2) \/
   (op1 = "&" /\ (op2 = "&" \/ op2 = "|")) \/
   (op1 = "|" /\ op2 = "|")).
Proof.
  destruct (pending_op_dec op1) as [H1|H1].
  - destruct (pending_op_dec op2) as [H2|H2].
    + unfold pending_op in *.
      destruct H1 as [->|[->| ->]], H2 as [->|[->| ->]];
        (split; [|split]); split; intros H;
        try discriminate H; try reflexivity;
        intuition (discriminate || auto).
    + assert (E : higher_precedence op1 op2 = Throw (out_of_range "unordered_map::at")).
      { unfold higher_precedence, at_.
        destruct (find_precedence_some op1 H1) as [p ->].
        now rewrite (find_precedence_none op2 H2). }
      rewrite E. (split; [|split]); split; intros H;
        try discriminate H; try reflexivity.
      * tauto.
      * exfalso. apply H2. unfold pending_op. intuition.
      * exfalso. apply H2. unfold pending_op in *. intuition.
  - assert (E : higher_precedence op1 op2 = Throw (out_of_range "unordered_map::at")).
    { unfold higher_precedence, at_. now rewrite (find_precedence_none op1 H1). }
    rewrite E. (split; [|split]); split; intros H;
      try discriminate H; try reflexivity.
    + tauto.
    + exfalso. apply H1. unfold pending_op. intuition.
    + exfalso. apply H1. unfold pending_op. intuition.
Qed.

Local Ltac split_fit :=
  repeat (rewrite literals_fit_app || rewrite literals_fit_cons_op by reflexivity).

(** The two mixed chains of three atoms: ['&'] takes its operands before
    ['|'] does, on whichever side it stands. *)
Lemma SyntaxTree_mixed_atoms
    (A B C : string) (ta tb tc : list string) (a b c : Node T) :
  spells (Grammar.atom cast) A ta a ->
  spells (Grammar.atom cast) B tb b ->
  spells (Grammar.atom cast) C tc c ->
  SyntaxTree cast (A ++ "|" ++ B ++ "&" ++ C) = Ok (OrNode a (AndNode b c)) /\
  SyntaxTree cast (A ++ "&" ++ B ++ "|" ++ C) = Ok (OrNode (AndNode a b) c).
Proof.
  intros HA HB HC.
  destruct (atom_converts cast _ _ _ HA) as (OkA & _ & SA & _).
  destruct (atom_converts cast _ _ _ HB) as (OkB & _ & SB & _).
  destruct (atom_converts cast _ _ _ HC) as (OkC & _ & SC & _).
  destruct HA as ([FA NA] & _ & HnA & HfA), HB as ([FB NB] & _ & HnB & HfB),
    HC as ([FC NC] & _ & HnC & HfC).
  pose proof (Grammar.term_factor cast _ _ FA) as TA.
  pose proof (Grammar.term_factor cast _ _ FB) as TB.
  pose proof (Grammar.term_factor cast _ _ FC) as TC.
  split.
  - apply (SyntaxTree_expr cast _ (ta ++ "|" :: (tb ++ "&" :: tc))).
    + apply Grammar.expr_or; [apply Grammar.expr_term|apply Grammar.term_and];
        assumption.
    + rewrite !no_double_not_app by discriminate. now rewrite HnA, HnB, HnC.
    + split_fit. now rewrite HfA, HfB, HfC.
    + rewrite !concat_tokens_app, !strip_app, SA, SB, SC. cbn [concat_tokens].
      rewrite ?concat_tokens_app, ?append_assoc. reflexivity.
  - apply (SyntaxTree_expr cast _ ((ta ++ "&" :: tb) ++ "|" :: tc)).
    + apply Grammar.expr_or; [apply Grammar.expr_term, Grammar.term_and|]; assumption.
    + rewrite !no_double_not_app by discriminate. now rewrite HnA, HnB, HnC.
    + split_fit. now rewrite HfA, HfB, HfC.
    + rewrite !concat_tokens_app, !strip_app, SA, SB, SC. cbn [concat_tokens].
      rewrite ?concat_tokens_app, ?append_assoc. reflexivity.
Qed.

(** X20. Precedence and associativity on atoms [A], [B], [C] with trees
    [a], [b], [c]: ['&'] and ['|'] associate to the left, ['&'] binds
    tighter than ['|'] on either side, and ['!'] binds tighter than both. *)
Theorem precedence_and_associativity
    (A B C : string) (ta tb tc : list string) (a b c : Node T)
    (HA : spells (Grammar.atom cast) A ta a)
    (HB : spells (Grammar.atom cast) B tb b)
    (HC : spells (Grammar.atom cast) C tc c) :
  SyntaxTree cast (A ++ "&" ++ B ++ "&" ++ C) = Ok (AndNode (AndNode a b) c) /\
  SyntaxTree cast (A ++ "|" ++ B ++ "|" ++ C) = Ok (OrNode (OrNode a b) c) /\
  SyntaxTree cast (A ++ "|" ++ B ++ "&" ++ C) = Ok (OrNode a (AndNode b c)) /\
  SyntaxTree cast (A ++ "&" ++ B ++ "|" ++ C) = Ok (OrNode (AndNode a b) c) /\
  SyntaxTree cast ("!" ++ A ++ "&" ++ B) = Ok (AndNode (NotNode a) b) /\
  SyntaxTree cast ("!" ++ A ++ "|" ++ B) = Ok (OrNode (NotNode a) b).
Proof.
  destruct (SyntaxTree_mixed_atoms A B C ta tb tc a b c HA HB HC) as [Mixed1 Mixed2].
  destruct (atom_converts cast _ _ _ HA) as (OkA & _ & SA & _).
  destruct (atom_converts cast _ _ _ HB) as (OkB & _ & SB & _).
  destruct (atom_converts cast _ _ _ HC) as (OkC & _ & SC & _).
  destruct HA as ([FA NA] & _ & HnA & HfA), HB as ([FB NB] & _ & HnB & HfB),
    HC as ([FC NC] & _ & HnC & HfC).
  pose proof (Grammar.term_factor cast _ _ FA) as TA.
  pose proof (Grammar.term_factor cast _ _ FB) as TB.
  pose proof (Grammar.term_factor cast _ _ FC) as TC.
  pose proof (Grammar.term_factor cast _ _ (Grammar.factor_not cast _ _ FA)) as TNA.
  assert (HnNA : no_double_not ("!" :: ta) = true)
    by (now rewrite no_double_not_after_not).
  assert (HfNA : literals_fit ("!" :: ta) = true)
    by (now rewrite literals_fit_cons_op).
  repeat split.
  - apply (SyntaxTree_expr cast _ ((ta ++ "&" :: tb) ++ "&" :: tc)).
    + apply Grammar.expr_term, Grammar.term_and; [apply Grammar.term_and|]; assumption.
    + rewrite !no_double_not_app by discriminate. now rewrite HnA, HnB, HnC.
    + split_fit. now rewrite HfA, HfB, HfC.
    + rewrite !concat_tokens_app, !strip_app, SA, SB, SC. cbn [concat_tokens].
      rewrite ?concat_tokens_app, ?append_assoc. reflexivity.
  - apply (SyntaxTree_expr cast _ ((ta ++ "|" :: tb) ++ "|" :: tc)).
    + apply Grammar.expr_or; [apply Grammar.expr_or; [apply Grammar.expr_term|]|];
        assumption.
    + rewrite !no_double_not_app by discriminate. now rewrite HnA, HnB, HnC.
    + split_fit. now rewrite HfA, HfB, HfC.
    + rewrite !concat_tokens_app, !strip_app, SA, SB, SC. cbn [concat_tokens].
      rewrite ?concat_tokens_app, ?append_assoc. reflexivity.
  - exact Mixed1.
  - exact Mixed2.
  - apply (SyntaxTree_expr cast _ (("!" :: ta) ++ "&" :: tb)).
    + apply Grammar.expr_term, Grammar.term_and; assumption.
    + rewrite !no_double_not_app by discriminate. now rewrite HnNA, HnB.
    + split_fit. now rewrite HfA, HfB.
    + rewrite !concat_tokens_app, !strip_app, SA, SB. cbn [concat_tokens].
      rewrite ?append_assoc. reflexivity.
  - apply (SyntaxTree_expr cast _ (("!" :: ta) ++ "|" :: tb)).
    + apply Grammar.expr_or; [apply Grammar.expr_term|]; assumption.
    + rewrite !no_double_not_app by discriminate. now rewrite HnNA, HnB.
    + split_fit. now rewrite HfA, HfB.
    + rewrite !concat_tokens_app, !strip_app, SA, SB. cbn [concat_tokens].
      rewrite ?append_assoc. reflexivity.
Qed.

End Precedence.

(** X20 at [A = "(1|2)"], [B = " 7"] and [C = "(1|2)"]. *)
Lemma precedence_and_associativity_example :
  let p := OrNode (LabelNode 1%Z) (LabelNode 2%Z) in
  (spells (Grammar.atom cast_int64) "(1|2)" ["("; "1"; "|"; "2"; ")"] p /\
   spells (Grammar.atom cast_int64) " 7" ["7"] (LabelNode 7%Z)) /\
  SyntaxTree cast_int64 ("(1|2)" ++ "&" ++ " 7" ++ "&" ++ "(1|2)") =
    Ok (AndNode (AndNode p (LabelNode 7%Z)) p) /\
  SyntaxTree cast_int64 ("(1|2)" ++ "|" ++ " 7" ++ "|" ++ "(1|2)") =
    Ok (OrNode (OrNode p (LabelNode 7%Z)) p) /\
  SyntaxTree cast_int64 ("(1|2)" ++ "|" ++ " 7" ++ "&" ++ "(1|2)") =
    Ok (OrNode p (AndNode (LabelNode 7%Z) p)) /\
  SyntaxTree cast_int64 ("(1|2)" ++ "&" ++ " 7" ++ "|" ++ "(1|2)") =
    Ok (OrNode (AndNode p (LabelNode 7%Z)) p) /\
  SyntaxTree cast_int64 ("!" ++ "(1|2)" ++ "&" ++ " 7") =
    Ok (AndNode (NotNode p) (LabelNode 7%Z)) /\
  SyntaxTree cast_int64 ("!" ++ "(1|2)" ++ "|" ++ " 7") =
    Ok (OrNode (NotNode p) (LabelNode 7%Z)).
Proof.
  intros p.
  split; [split; [exact example_paren_spells|exact example_literal_spells]|].
  exact (precedence_and_associativity cast_int64 _ _ _ _ _ _ _ _ _
           example_paren_spells example_literal_spells example_paren_spells).
Defined.

(** ** The precedence of ['&'] over ['|'] *)

Section PrecedenceClaim.

Context {T : Type} (T_eq_dec : forall x y : T, {x = y} + {x <> y}) (cast : Z -> T).

(** C1. ['&'] binds tighter than ['|'], on whichever side it stands.
    ["1|2&3"] compiles to the tree of [1|(2&3)], the same tree as the
    explicitly parenthesised string; on the labels [[2,3]] its check is true,
    on [[2]] it is false (labels 1 and 3 being different from label 2 in
    [T]). ["1&2|3"], where the ['|'] has to pop the ['&'] already on the
    stack, compiles to the tree of [(1&2)|3]. And for all atoms [A], [B],
    [C] with trees [a], [b], [c], ["A|B&C"] compiles to [Or a (And b c)] and
    ["A&B|C"] to [Or (And a b) c]. *)
Theorem precedence_and_binds_tighter
    (A B C : string) (ta tb tc : list string) (a b c : Node T)
    (HA : spells (Grammar.atom cast) A ta a)
    (HB : spells (Grammar.atom cast) B tb b)
    (HC : spells (Grammar.atom cast) C tc c)
    (H12 : cast 1 <> cast 2) (H32 : cast 3 <> cast 2) :
  SyntaxTree cast "1|2&3" =
    Ok (OrNode (LabelNode (cast 1))
               (AndNode (LabelNode (cast 2)) (LabelNode (cast 3)))) /\
  SyntaxTree cast "1|2&3" = SyntaxTree cast "1|(2&3)" /\
  compile_and_check T_eq_dec cast "1|2&3" [cast 2; cast 3] = Ok true /\
  compile_and_check T_eq_dec cast "1|2&3" [cast 2] = Ok false /\
  SyntaxTree cast "1&2|3" =
    Ok (OrNode (AndNode (LabelNode (cast 1)) (LabelNode (cast 2)))
               (LabelNode (cast 3))) /\
  SyntaxTree cast "1&2|3" = SyntaxTree cast "(1&2)|3" /\
  compile_and_check T_eq_dec cast "1&2|3" [cast 1; cast 2] = Ok true /\
  compile_and_check T_eq_dec cast "1&2|3" [cast 2] = Ok false /\
  SyntaxTree cast (A ++ "|" ++ B ++ "&" ++ C) = Ok (OrNode a (AndNode b c)) /\
  SyntaxTree cast (A ++ "&" ++ B ++ "|" ++ C) = Ok (OrNode (AndNode a b) c).
Proof.
  assert (E : SyntaxTree cast "1|2&3" =
              Ok (OrNode (LabelNode (cast 1))
                         (AndNode (LabelNode (cast 2)) (LabelNode (cast 3)))))
    by reflexivity.
  assert (E' : SyntaxTree cast "1&2|3" =
               Ok (OrNode (AndNode (LabelNode (cast 1)) (LabelNode (cast 2)))
                          (LabelNode (cast 3))))
    by reflexivity.
  destruct (SyntaxTree_mixed_atoms cast A B C ta tb tc a b c HA HB HC) as [M1 M2].
  split; [exact E|]. split; [reflexivity|].
  unfold compile_and_check, SyntaxTree_check. rewrite E, E'. cbn [bind].
  assert (Hchecks :
    check T_eq_dec (OrNode (LabelNode (cast 1))
                           (AndNode (LabelNode (cast 2)) (LabelNode (cast 3))))
      [cast 2; cast 3] = true /\
    check T_eq_dec (OrNode (LabelNode (cast 1))
                           (AndNode (LabelNode (cast 2)) (LabelNode (cast 3))))
      [cast 2] = false /\
    check T_eq_dec (OrNode (AndNode (LabelNode (cast 1)) (LabelNode (cast 2)))
                           (LabelNode (cast 3)))
      [cast 1; cast 2] = true /\
    check T_eq_dec (OrNode (AndNode (LabelNode (cast 1)) (LabelNode (cast 2)))
                           (LabelNode (cast 3)))
      [cast 2] = false).
  { repeat split; cbn [check std_find List.length];
      repeat match goal with
             | |- context [T_eq_dec ?x ?y] => destruct (T_eq_dec x y)
             end;
      try reflexivity; congruence. }
  destruct Hchecks as (K1 & K2 & K3 & K4).
  rewrite K1, K2, K3, K4.
  split; [reflexivity|]. split; [reflexivity|]. split; [reflexivity|].
  split; [reflexivity|]. split; [reflexivity|]. split; [reflexivity|].
  split; [exact M1|exact M2].
Qed.

End PrecedenceClaim.

Lemma example_paren_spells_uint32 :
  spells (Grammar.atom cast_uint32) "(1|2)" ["("; "1"; "|"; "2"; ")"]
    (OrNode (LabelNode 1%Z) (LabelNode 2%Z)).
Proof.
  split; [split; [|discriminate]|split; [|split; reflexivity]].
  - apply (Grammar.factor_paren cast_uint32 ["1"; "|"; "2"]).
    apply (Grammar.expr_or cast_uint32 ["1"] ["2"]).
    + apply Grammar.expr_term, Grammar.term_factor,
        (Grammar.factor_literal cast_uint32 "1"). reflexivity.
    + apply Grammar.term_factor, (Grammar.factor_literal cast_uint32 "2"). reflexivity.
  - apply (spaced_cons "" "(" _ "1|2)"); [reflexivity|].
    apply (spaced_cons "" "1" _ "|2)"); [reflexivity|].
    apply (spaced_cons "" "|" _ "2)"); [reflexivity|].
    apply (spaced_cons "" "2" _ ")"); [reflexivity|].
    apply (spaced_cons "" ")" _ ""); [reflexivity|].
    apply spaced_nil. reflexivity.
Qed.

Lemma example_literal_spells_uint32 :
  spells (Grammar.atom cast_uint32) " 7" ["7"] (LabelNode 7%Z).
Proof.
  split; [split; [|discriminate]|split; [|split; reflexivity]].
  - apply (Grammar.factor_literal cast_uint32 "7"). reflexivity.
  - apply (spaced_cons " " "7" _ ""); [reflexivity|].
    apply spaced_nil. reflexivity.
Qed.

(** C1 at [T = uint32_t], with the atoms [A = " 7"], [B = "(1|2)"] and
    [C = " 7"]. *)
Lemma precedence_and_binds_tighter_uint32 :
  let p := OrNode (LabelNode 1%Z) (LabelNode 2%Z) in
  let q := LabelNode 7%Z in
  (spells (Grammar.atom cast_uint32) " 7" ["7"] q /\
   spells (Grammar.atom cast_uint32) "(1|2)" ["("; "1"; "|"; "2"; ")"] p /\
   cast_uint32 1 <> cast_uint32 2 /\ cast_uint32 3 <> cast_uint32 2) /\
  SyntaxTree cast_uint32 "1|2&3" =
    Ok (OrNode (LabelNode 1%Z) (AndNode (LabelNode 2%Z) (LabelNode 3%Z))) /\
  SyntaxTree cast_uint32 "1|2&3" = SyntaxTree cast_uint32 "1|(2&3)" /\
  compile_and_check Z.eq_dec cast_uint32 "1|2&3" [2%Z; 3%Z] = Ok true /\
  compile_and_check Z.eq_dec cast_uint32 "1|2&3" [2%Z] = Ok false /\
  SyntaxTree cast_uint32 "1&2|3" =
    Ok (OrNode (AndNode (LabelNode 1%Z) (LabelNode 2%Z)) (LabelNode 3%Z)) /\
  SyntaxTree cast_uint32 "1&2|3" = SyntaxTree cast_uint32 "(1&2)|3" /\
  compile_and_check Z.eq_dec cast_uint32 "1&2|3" [1%Z; 2%Z] = Ok true /\
  compile_and_check Z.eq_dec cast_uint32 "1&2|3" [2%Z] = Ok false /\
  SyntaxTree cast_uint32 (" 7" ++ "|" ++ "(1|2)" ++ "&" ++ " 7") =
    Ok (OrNode q (AndNode p q)) /\
  SyntaxTree cast_uint32 (" 7" ++ "&" ++ "(1|2)" ++ "|" ++ " 7") =
    Ok (OrNode (AndNode q p) q).
Proof.
  intros p q.
  assert (H12 : cast_uint32 1 <> cast_uint32 2) by (vm_compute; discriminate).
  assert (H32 : cast_uint32 3 <> cast_uint32 2) by (vm_compute; discriminate).
  split.
  { split; [exact example_literal_spells_uint32|].
    split; [exact example_paren_spells_uint32|]. split; assumption. }
  exact (precedence_and_binds_tighter Z.eq_dec cast_uint32 _ _ _ _ _ _ _ _ _
           example_literal_spells_uint32 example_paren_spells_uint32
           example_literal_spells_uint32 H12 H32).
Defined.
